(** * SCoT [varbase.py]: the vector autoregressive model engine

    A shallow embedding of [scot/varbase.py] (class [VARBase] and the
    whiteness test) together with the properties of the specification that
    were checked against it.

    Modelling conventions.
    - numpy arrays are a shape together with an element accessor; only the
      accessor's values inside the shape are meaningful.  Rank 1, 2 and 3
      arrays are [vector], [matrix] and [tensor].
    - float64 arithmetic is idealised as exact arithmetic over a scalar type
      [R]; the ring laws are a hypothesis only of the theorems that use them.
    - a Python exception is the [Raise] branch of [result]; numpy's shape
      checks ([hstack], [vstack], [dot], in-place [+=] with broadcasting) and
      Python's slice index normalisation are written out.
    - array objects live in a store ([heap]); a model's fields hold
      references, so that [copy], views and aliasing can be expressed.
    - library code that is called but is not part of [varbase.py]
      (linear solvers, eigenvalues, [acm], random numbers, configuration) is
      the interface [Externals]; what can raise there returns a [result],
      and a theorem that needs such a call to return says so for the
      inputs at hand. *)

From Stdlib Require Import ZArith List Lia Bool String QArith Ring PeanoNat.
Import ListNotations.

Set Implicit Arguments.
Open Scope string_scope.
Open Scope nat_scope.

(* ------------------------------------------------------------------ *)
(** ** Exceptions and the error monad *)

Inductive exn : Type :=
| ValueError (msg : string)
| AttributeError (msg : string)
| IndexError (msg : string)
| ZeroDivisionError
| TypeError (msg : string)
| AssertionError
| LinAlgError
| NotImplementedError.

Inductive result (A : Type) : Type :=
| Ok (a : A)
| Raise (e : exn).
Arguments Ok {A} a.
Arguments Raise {A} e.

Definition bind {A B : Type} (c : result A) (k : A -> result B) : result B :=
  match c with
  | Ok a => k a
  | Raise e => Raise e
  end.

Notation "x <- c ;; k" := (bind c (fun x => k))
  (at level 61, c at next level, right associativity).
Notation "' pat <- c ;; k" := (bind c (fun x => match x with pat => k end))
  (at level 61, pat pattern, c at next level, right associativity).

(** [for x in xs: st = body(x, st)], stopping at the first exception. *)
Fixpoint for_each {A S : Type} (xs : list A) (body : A -> S -> result S) (st : S)
  : result S :=
  match xs with
  | [] => Ok st
  | x :: xs' => st' <- body x st ;; for_each xs' body st'
  end.

(** A list comprehension whose element expression may raise. *)
Fixpoint map_result {A B : Type} (f : A -> result B) (xs : list A) : result (list B) :=
  match xs with
  | [] => Ok []
  | x :: xs' => y <- f x ;; ys <- map_result f xs' ;; Ok (y :: ys)
  end.

(** Python's [range(a, b)] for natural bounds. *)
Definition range (a b : nat) : list nat := seq a (b - a).

(** Python's [a // b] on non-negative integers. *)
Definition floordiv (a b : nat) : result nat :=
  if b =? 0 then Raise ZeroDivisionError else Ok (a / b).

Definition py_assert (b : bool) : result unit :=
  if b then Ok tt else Raise AssertionError.

(** Normalisation of a slice bound against an axis of length [len]
    (CPython's [PySlice_AdjustIndices], positive step). *)
Definition slice_bound (i : Z) (len : nat) : nat :=
  if (i <? 0)%Z
  then (if (i + Z.of_nat len <? 0)%Z then 0 else Z.to_nat (i + Z.of_nat len))
  else Nat.min (Z.to_nat i) len.

(* ------------------------------------------------------------------ *)
(** ** Scalars *)

Class Scalar (R : Type) : Type := {
  rO : R;
  rI : R;
  radd : R -> R -> R;
  rmul : R -> R -> R;
  rsub : R -> R -> R;
  ropp : R -> R;
  rdiv : R -> R -> R;
  of_int : Z -> R;          (* conversion of a Python int to float *)
  rge : R -> R -> bool      (* the comparison [>=] *)
}.

#[global] Instance Scalar_Z : Scalar Z := {
  rO := 0%Z; rI := 1%Z;
  radd := Z.add; rmul := Z.mul; rsub := Z.sub; ropp := Z.opp;
  rdiv := Z.div; of_int := fun z => z; rge := Z.geb }.

#[global] Instance Scalar_Q : Scalar Q := {
  rO := 0%Q; rI := 1%Q;
  radd := Qplus; rmul := Qmult; rsub := Qminus; ropp := Qopp;
  rdiv := Qdiv; of_int := inject_Z; rge := fun a b => Qle_bool b a }.

(* ------------------------------------------------------------------ *)
(** ** numpy arrays *)

Section Arrays.
Context {R : Type} `{Scalar R}.

Record vector : Type := mkVec { vlen : nat; vget : nat -> R }.
Record matrix : Type := mkMat { nrows : nat; ncols : nat; mget : nat -> nat -> R }.
Record tensor : Type :=
  mkTen { dim0 : nat; dim1 : nat; dim2 : nat; tget : nat -> nat -> nat -> R }.

(** [sum_{j < n} f j], accumulated from the left. *)
Definition rsum (n : nat) (f : nat -> R) : R :=
  fold_left (fun acc j => radd acc (f j)) (seq 0 n) rO.

Definition zeros (r c : nat) : matrix := mkMat r c (fun _ _ => rO).
Definition zeros3 (a b c : nat) : tensor := mkTen a b c (fun _ _ _ => rO).
Definition eye (m : nat) : matrix :=
  mkMat m m (fun i j => if i =? j then rI else rO).

(** [a.T] *)
Definition transpose (a : matrix) : matrix :=
  mkMat (ncols a) (nrows a) (fun i j => mget a j i).

Definition shape_error : exn :=
  ValueError "all the input array dimensions except for the concatenation axis must match exactly".
Definition empty_error : exn :=
  ValueError "need at least one array to concatenate".
Definition dot_error : exn := ValueError "shapes not aligned".
Definition broadcast_error : exn :=
  ValueError "operands could not be broadcast together".

(** [np.concatenate([a, b], 1)] and [np.concatenate([a, b], 0)]. *)
Definition append_cols (a b : matrix) : result matrix :=
  if nrows a =? nrows b
  then Ok (mkMat (nrows a) (ncols a + ncols b)
             (fun i j => if j <? ncols a then mget a i j else mget b i (j - ncols a)))
  else Raise shape_error.

Definition append_rows (a b : matrix) : result matrix :=
  if ncols a =? ncols b
  then Ok (mkMat (nrows a + nrows b) (ncols a)
             (fun i j => if i <? nrows a then mget a i j else mget b (i - nrows a) j))
  else Raise shape_error.

(** [np.hstack] and [np.vstack] of a list of rank-2 arrays. *)
Definition hstack (l : list matrix) : result matrix :=
  match l with
  | [] => Raise empty_error
  | a :: l' => for_each l' (fun b acc => append_cols acc b) a
  end.

Definition vstack (l : list matrix) : result matrix :=
  match l with
  | [] => Raise empty_error
  | a :: l' => for_each l' (fun b acc => append_rows acc b) a
  end.

(** [sp.linalg.block_diag(a, b)] *)
Definition block_diag (a b : matrix) : matrix :=
  mkMat (nrows a + nrows b) (ncols a + ncols b)
    (fun i j =>
       if i <? nrows a
       then (if j <? ncols a then mget a i j else rO)
       else (if j <? ncols a then rO else mget b (i - nrows a) (j - ncols a))).

(** [a[:, i::p]]: the columns [i, i+p, i+2p, ...] of [a]. *)
Definition cols_from_step (a : matrix) (i p : nat) : result matrix :=
  if p =? 0 then Raise (ValueError "slice step cannot be zero")
  else Ok (mkMat (nrows a) ((ncols a - i + (p - 1)) / p)
             (fun r c => mget a r (i + c * p))).

(** [a[i::n, :]]: the rows [i, i+n, i+2n, ...] of [a]. *)
Definition rows_from_step (a : matrix) (i n : nat) : result matrix :=
  if n =? 0 then Raise (ValueError "slice step cannot be zero")
  else Ok (mkMat ((nrows a - i + (n - 1)) / n) (ncols a)
             (fun r c => mget a (i + r * n) c)).

(** [a[lo:hi, :]] for non-negative bounds. *)
Definition rows_between (a : matrix) (lo hi : nat) : matrix :=
  let lo' := Nat.min lo (nrows a) in
  let hi' := Nat.min hi (nrows a) in
  mkMat (hi' - lo') (ncols a) (fun r c => mget a (lo' + r) c).

(** [np.dot(a, b)] for rank-2 arrays. *)
Definition dot (a b : matrix) : result matrix :=
  if ncols a =? nrows b
  then Ok (mkMat (nrows a) (ncols b)
             (fun i j => rsum (ncols a) (fun x => rmul (mget a i x) (mget b x j))))
  else Raise dot_error.

(** [a.dot(v)] for a rank-2 array and a rank-1 array. *)
Definition dotv (a : matrix) (v : vector) : result vector :=
  if ncols a =? vlen v
  then Ok (mkVec (nrows a)
             (fun i => rsum (ncols a) (fun x => rmul (mget a i x) (vget v x))))
  else Raise dot_error.

(** [a.trace()] *)
Definition trace (a : matrix) : R :=
  rsum (Nat.min (nrows a) (ncols a)) (fun i => mget a i i).

(** Broadcasting of an operand axis of length [n] against a target axis of
    length [len]: allowed when [n = len] or [n = 1]. *)
Definition bc_ok (n len : nat) : bool := (n =? len) || (n =? 1).
Definition bc_idx (n i : nat) : nat := if n =? 1 then 0 else i.

(** The result of [a -= b] and of [a += b] for rank-2 arrays. *)
Definition isub (a b : matrix) : result matrix :=
  if bc_ok (nrows b) (nrows a) && bc_ok (ncols b) (ncols a)
  then Ok (mkMat (nrows a) (ncols a)
             (fun i j => rsub (mget a i j)
                           (mget b (bc_idx (nrows b) i) (bc_idx (ncols b) j))))
  else Raise broadcast_error.

Definition iadd (a b : matrix) : result matrix :=
  if bc_ok (nrows b) (nrows a) && bc_ok (ncols b) (ncols a)
  then Ok (mkMat (nrows a) (ncols a)
             (fun i j => radd (mget a i j)
                           (mget b (bc_idx (nrows b) i) (bc_idx (ncols b) j))))
  else Raise broadcast_error.

End Arrays.

Arguments vector R : clear implicits.
Arguments matrix R : clear implicits.
Arguments tensor R : clear implicits.

(* ------------------------------------------------------------------ *)
(** ** The object store

    numpy arrays are mutable objects.  A cell of the store holds one array
    buffer; an array object is either a whole buffer or the view [a[i]] of a
    buffer along its first axis (what indexing a numpy array returns). *)

Section Store.
Context {R : Type} `{Scalar R}.

Inductive ndarray : Type :=
| Arr0 (x : R)
| Arr1 (v : vector R)
| Arr2 (m : matrix R)
| Arr3 (t : tensor R).

Definition loc : Type := nat.

Inductive aref : Type :=
| Whole (l : loc)
| Item (l : loc) (i : nat).

Record heap : Type := mkHeap { cells : loc -> ndarray; next : loc }.

Definition empty_heap : heap := mkHeap (fun _ => Arr1 (mkVec 0 (fun _ => rO))) 0.

Definition update (h : heap) (l : loc) (a : ndarray) : heap :=
  mkHeap (fun l' => if l' =? l then a else cells h l') (next h).

(** A fresh array object. *)
Definition alloc (h : heap) (a : ndarray) : heap * aref :=
  (mkHeap (fun l' => if l' =? next h then a else cells h l') (S (next h)),
   Whole (next h)).

(** The contents of [a[i]]. *)
Definition item (a : ndarray) (i : nat) : ndarray :=
  match a with
  | Arr0 x => Arr0 x
  | Arr1 v => Arr0 (vget v i)
  | Arr2 m => Arr1 (mkVec (ncols m) (fun c => mget m i c))
  | Arr3 t => Arr2 (mkMat (dim1 t) (dim2 t) (fun r c => tget t i r c))
  end.

Definition load (h : heap) (r : aref) : ndarray :=
  match r with
  | Whole l => cells h l
  | Item l i => item (cells h l) i
  end.

(** Overwriting the elements of a rank-2 array object in place. *)
Definition store2 (h : heap) (r : aref) (m : matrix R) : heap :=
  match r with
  | Whole l => update h l (Arr2 m)
  | Item l i =>
      match cells h l with
      | Arr3 t =>
          update h l
            (Arr3 (mkTen (dim0 t) (dim1 t) (dim2 t)
                     (fun a r c => if a =? i then mget m r c else tget t a r c)))
      | _ => h
      end
  end.

(** [len(a)] *)
Definition len (a : ndarray) : result nat :=
  match a with
  | Arr0 _ => Raise (TypeError "len() of unsized object")
  | Arr1 v => Ok (vlen v)
  | Arr2 m => Ok (nrows m)
  | Arr3 t => Ok (dim0 t)
  end.

Definition unpack_error : exn := ValueError "wrong number of values to unpack".

Definition as_matrix (a : ndarray) : result (matrix R) :=
  match a with Arr2 m => Ok m | _ => Raise unpack_error end.

Definition as_tensor (a : ndarray) : result (tensor R) :=
  match a with Arr3 t => Ok t | _ => Raise unpack_error end.

End Store.

Arguments ndarray R : clear implicits.
Arguments heap R : clear implicits.

(* ------------------------------------------------------------------ *)
(** ** Code outside [varbase.py] *)

Class Externals (R : Type) : Type := {
  (** [config.getboolean('scot', 'verbose')] *)
  config_verbose : bool;
  (** [sp.linalg.solve(a, b)]; [None] when it raises [LinAlgError] *)
  linalg_solve : matrix R -> matrix R -> option (matrix R);
  (** [np.all(np.abs(np.linalg.eig(a)[0]) < 1)] for a square [a] *)
  eig_all_abs_lt_1 : matrix R -> bool;
  (** [scot.datatools.acm(x, l)]; it raises when it is asked for a lag
      that the samples of [x] do not reach *)
  acm : tensor R -> nat -> result (matrix R);
  (** [sp.linalg.lu_factor(c0, overwrite_a=False, check_finite=True)]:
      a factorisation, or the error it raises on what it cannot factor *)
  lu : Type;
  lu_factor : matrix R -> result lu;
  (** [sp.linalg.lu_solve(c0f, b)] *)
  lu_solve : lu -> matrix R -> result (matrix R);
  (** [np.cov(x, rowvar=False)]; the rank of the result depends on [x] *)
  np_cov : matrix R -> ndarray R;
  (** the state of a random number generator, and its two uses:
      [rng.normal(size=(1, m))] and [rng.permutation(x.T).T] *)
  rng : Type;
  rng_normal : rng -> nat -> vector R * rng;
  rng_permutation : rng -> tensor R -> tensor R * rng
}.

(* ------------------------------------------------------------------ *)
(** ** class [VARBase] *)

Section VAR.
Context {R : Type} `{Scalar R} `{Externals R}.

Record VARBase : Type := mkVAR {
  p : nat;
  coef : option aref;         (* [None] is Python's [None] *)
  residuals : option aref;
  rescov : option aref;
  n_jobs : option nat;
  verbose : bool
}.

(** [__init__(self, model_order, n_jobs=1, verbose=None)] *)
Definition init (model_order : nat) (n_jobs : option nat) (verbose : option bool)
  : VARBase :=
  mkVAR model_order None None None n_jobs
    (match verbose with
     | None => config_verbose
     | Some v => v
     end).

(** [x.copy()] for a field [x] that is an array or [None]. *)
Definition array_copy (h : heap R) (x : option aref) : result (heap R * option aref) :=
  match x with
  | None => Raise (AttributeError "'NoneType' object has no attribute 'copy'")
  | Some r => let (h', r') := alloc h (load h r) in Ok (h', Some r')
  end.

Definition copy (h : heap R) (self : VARBase) : result (heap R * VARBase) :=
  let other := init (p self) (Some 1) None in
  '(h1, c) <- array_copy h (coef self) ;;
  '(h2, r) <- array_copy h1 (residuals self) ;;
  '(h3, v) <- array_copy h2 (rescov self) ;;
  Ok (h3, mkVAR (p other) c r v (n_jobs other) (verbose other)).

(** The assignments [self.residuals = r; self.rescov = v]. *)
Definition set_residuals (self : VARBase) (r v : aref) : VARBase :=
  mkVAR (p self) (coef self) (Some r) (Some v) (n_jobs self) (verbose self).

(** The assignments [self.coef = c; self.rescov = v]. *)
Definition set_coef (self : VARBase) (c v : aref) : VARBase :=
  mkVAR (p self) (Some c) (residuals self) (Some v) (n_jobs self) (verbose self).

(** [fit] and [optimize] are abstract. *)
Definition fit (self : VARBase) (data : ndarray R) : result VARBase :=
  Raise NotImplementedError.
Definition optimize (self : VARBase) (data : ndarray R) : result VARBase :=
  Raise NotImplementedError.

(** *** [is_stable] *)

(** [self.coef.shape], unpacked into two names. *)
Definition coef_matrix (h : heap R) (self : VARBase) : result (matrix R) :=
  match coef self with
  | None => Raise (AttributeError "'NoneType' object has no attribute 'shape'")
  | Some r => as_matrix (load h r)
  end.

(** [np.linalg.eig] accepts square arrays only. *)
Definition all_eig_inside (a : matrix R) : result bool :=
  if nrows a =? ncols a then Ok (eig_all_abs_lt_1 a) else Raise LinAlgError.

Definition is_stable (h : heap R) (self : VARBase) : result bool :=
  coef <- coef_matrix h self ;;
  let m := nrows coef in
  let mp := ncols coef in
  p <- floordiv mp m ;;
  _ <- py_assert (mp =? m * p) ;;
  top_block <- map_result (fun i => cols_from_step coef i p) (range 0 p) ;;
  top_block <- hstack top_block ;;
  let im := eye m in
  let eye_block :=
    fold_left (fun eye_block _ => block_diag im eye_block) (range 0 (p - 2)) im in
  eye_block <- hstack [eye_block; zeros (m * (p - 1)) m] ;;
  tmp <- vstack [top_block; eye_block] ;;
  all_eig_inside tmp.

(** *** [from_yw] *)

(** The local [acm = lambda l: acms[l] if l >= 0 else acms[-l].T], over the
    contents [t] of [acms]. *)
Definition acm_lambda (t : tensor R) (l : Z) : matrix R :=
  if (0 <=? l)%Z
  then mkMat (dim1 t) (dim2 t) (fun i j => tget t (Z.to_nat l) i j)
  else transpose (mkMat (dim1 t) (dim2 t) (fun i j => tget t (Z.to_nat (- l)) i j)).

(** [np.concatenate(acms[1:], 0)] *)
Definition concatenate_tail (t : tensor R) : result (matrix R) :=
  if dim0 t - 1 =? 0 then Raise empty_error
  else Ok (mkMat ((dim0 t - 1) * dim1 t) (dim2 t)
             (fun i j => tget t (1 + i / dim1 t) (i mod dim1 t) j)).

(** [rr = np.array([[acm(m-k) for k in range(p)] for m in range(p)])]
    followed by [np.concatenate(np.concatenate(rr, -2), -1)]: block
    [(a, b)] of the result is [acm(a - b)].  [np.array] needs blocks of one
    shape, and [np.concatenate] at least one block. *)
Definition block_toeplitz (t : tensor R) (p : nat) : result (matrix R) :=
  if p =? 0 then Raise empty_error
  else if (2 <=? p) && negb (dim1 t =? dim2 t)
  then Raise (ValueError "setting an array element with a sequence")
  else Ok (mkMat (p * dim1 t) (p * dim2 t)
             (fun i j =>
                mget (acm_lambda t (Z.of_nat (i / dim1 t) - Z.of_nat (j / dim2 t)))
                     (i mod dim1 t) (j mod dim2 t))).

Definition solve (a b : matrix R) : result (matrix R) :=
  match linalg_solve a b with
  | Some c => Ok c
  | None => Raise LinAlgError
  end.

Definition acm_count_error : exn :=
  ValueError "Number of autocorrelation matrices does not match model order + 1.".

(** One pass of the residual covariance loop:
    [r -= np.dot(c[bs:bs + n_channels, :].T, acm(k + 1))], where [r] is the
    array object [acms[0]] and [acm] reads the current contents of [acms]. *)
Definition from_yw_step (acms : loc) (n_channels : nat) (c : matrix R)
    (k : nat) (h : heap R) : result (heap R) :=
  let bs := k * n_channels in
  t <- as_tensor (cells h acms) ;;
  d <- dot (transpose (rows_between c bs (bs + n_channels)))
           (acm_lambda t (Z.of_nat (k + 1))) ;;
  r <- as_matrix (load h (Item acms 0)) ;;
  r' <- isub r d ;;
  Ok (store2 h (Item acms 0) r').

(** [from_yw(self, acms)]; [acms] is the array object passed by the caller,
    of shape (n_lags, n_channels, n_channels). *)
Definition from_yw (h : heap R) (self : VARBase) (acms : loc)
  : result (heap R * VARBase) :=
  n <- len (cells h acms) ;;
  if negb (n =? p self + 1) then Raise acm_count_error
  else
    t <- as_tensor (cells h acms) ;;
    let n_channels := dim1 t in
    r <- concatenate_tail t ;;
    rr <- block_toeplitz t (p self) ;;
    c <- solve rr r ;;
    (* calculate residual covariance *)
    let r := Item acms 0 in
    h1 <- for_each (range 0 (p self)) (from_yw_step acms n_channels c) h ;;
    rows <- map_result (fun m => rows_from_step c m n_channels) (range 0 n_channels) ;;
    cat <- vstack rows ;;
    let (h2, coef) := alloc h1 (Arr2 (transpose cat)) in
    Ok (h2, set_coef self coef r).

(** *** [predict] *)

(** Modelled from the spec: [datatools.atleast_3d] is not part of
    [varbase.py]; the specification describes it as the rank normaliser
    "promoting 2D (channels, samples) to (1, channels, samples)", leaving
    rank 3 arrays as they are.  Lower ranks are padded with leading axes
    of length one in the same way. *)
Definition atleast_3d (x : ndarray R) : tensor R :=
  match x with
  | Arr3 t => t
  | Arr2 m => mkTen 1 (nrows m) (ncols m) (fun _ i j => mget m i j)
  | Arr1 v => mkTen 1 1 (vlen v) (fun _ _ j => vget v j)
  | Arr0 x => mkTen 1 1 1 (fun _ _ _ => x)
  end.

(** [x.shape] as a list. *)
Definition shape (x : ndarray R) : list nat :=
  match x with
  | Arr0 _ => []
  | Arr1 v => [vlen v]
  | Arr2 m => [nrows m; ncols m]
  | Arr3 t => [dim0 t; dim1 t; dim2 t]
  end.

(** [x[:, :, n]] for an index [0 <= n < l]. *)
Definition item_last (x : tensor R) (n : nat) : matrix R :=
  mkMat (dim0 x) (dim1 x) (fun s i => tget x s i n).

(** [y[:, :, n] += d] *)
Definition iadd_last (y : tensor R) (n : nat) (d : matrix R) : result (tensor R) :=
  r <- iadd (item_last y n) d ;;
  Ok (mkTen (dim0 y) (dim1 y) (dim2 y)
        (fun s i x => if x =? n then mget r s i else tget y s i x)).

(** [x[s, :, lo:hi]] with Python's treatment of the slice bounds. *)
Definition trial_slice (x : tensor R) (s : nat) (lo hi : Z) : matrix R :=
  let lo' := slice_bound lo (dim2 x) in
  let hi' := slice_bound hi (dim2 x) in
  mkMat (dim1 x) (hi' - lo') (fun i j => tget x s i (lo' + j)).

(** [y[s, :, lo:] += d] for [lo >= 0]. *)
Definition iadd_trial_from (y : tensor R) (s lo : nat) (d : matrix R)
  : result (tensor R) :=
  let lo' := Nat.min lo (dim2 y) in
  r <- iadd (mkMat (dim1 y) (dim2 y - lo') (fun i j => tget y s i (lo' + j))) d ;;
  Ok (mkTen (dim0 y) (dim1 y) (dim2 y)
        (fun s' i x =>
           if (s' =? s) && (lo' <=? x) then mget r i (x - lo') else tget y s' i x)).

(** [self.coef] where the code takes [np.shape(self.coef)]; the field only
    ever holds [None] or a rank 2 array. *)
Definition coef_for_shape (h : heap R) (self : VARBase) (none_error : exn)
  : result (matrix R) :=
  match coef self with
  | None => Raise none_error
  | Some r => as_matrix (load h r)
  end.

(** The branch [if t > l - p]: for each lag, one matrix product per sample
    over all trials. *)
Definition predict_lag_outer (coef : matrix R) (data : tensor R) (p : nat)
    (y : tensor R) : result (tensor R) :=
  for_each (range 1 (p + 1))
    (fun k y =>
       bp <- cols_from_step coef (k - 1) p ;;
       for_each (range p (dim2 data))
         (fun n y =>
            d <- dot (item_last data (n - k)) (transpose bp) ;;
            iadd_last y n d)
         y)
    y.

(** The [else] branch: for each lag and each trial, one matrix product over
    the sample range. *)
Definition predict_per_trial (coef : matrix R) (data : tensor R) (p : nat)
    (y : tensor R) : result (tensor R) :=
  let l := dim2 data in
  for_each (range 1 (p + 1))
    (fun k y =>
       bp <- cols_from_step coef (k - 1) p ;;
       for_each (range 0 (dim0 data))
         (fun s y =>
            d <- dot bp (trial_slice data s (Z.of_nat p - Z.of_nat k)
                                            (Z.of_nat l - Z.of_nat k)) ;;
            iadd_trial_from y s p d)
         y)
    y.

Definition predict (h : heap R) (self : VARBase) (data : ndarray R)
  : result (tensor R) :=
  let data := atleast_3d data in
  let t := dim0 data in
  let m := dim1 data in
  let l := dim2 data in
  coef <- coef_for_shape h self (IndexError "tuple index out of range") ;;
  p <- floordiv (ncols coef) m ;;
  let y := zeros3 t m l in
  if (Z.of_nat t >? Z.of_nat l - Z.of_nat p)%Z
  then predict_lag_outer coef data p y
  else predict_per_trial coef data p y.

(** *** [simulate] *)

(** The argument [l]: a sample count, or samples and trials. *)
Inductive length_arg : Type :=
| Samples (l : nat)
| SamplesTrials (l t : nat).

(** [x[i, :, s] = e]: the value is broadcast to the row. *)
Definition set_row (x : tensor R) (i s : nat) (e : vector R) : result (tensor R) :=
  if bc_ok (vlen e) (dim1 x)
  then Ok (mkTen (dim0 x) (dim1 x) (dim2 x)
             (fun i' c s' =>
                if (i' =? i) && (s' =? s) then vget e (bc_idx (vlen e) c)
                else tget x i' c s'))
  else Raise broadcast_error.

(** [x[i, :, s]] *)
Definition get_row (x : tensor R) (i s : nat) : vector R :=
  mkVec (dim1 x) (fun c => tget x i c s).

(** [x[i, :, s] += v] *)
Definition iadd_row (x : tensor R) (i s : nat) (v : vector R) : result (tensor R) :=
  if bc_ok (vlen v) (dim1 x)
  then Ok (mkTen (dim0 x) (dim1 x) (dim2 x)
             (fun i' c s' =>
                if (i' =? i) && (s' =? s)
                then radd (tget x i' c s') (vget v (bc_idx (vlen v) c))
                else tget x i' c s'))
  else Raise broadcast_error.

(** [x[n0:, :, :].transpose([2, 1, 0])], which is also [x[n0:, :, :].T]. *)
Definition drop_transpose (x : tensor R) (n0 : nat) : tensor R :=
  let n0' := Nat.min n0 (dim0 x) in
  mkTen (dim2 x) (dim1 x) (dim0 x - n0') (fun s c i => tget x (n0' + i) c s).

(** Modelled from the spec: [datatools.cat_trials] is not part of
    [varbase.py]; the specification describes it as the trial
    concatenation utility, "cat_trials(tensor) -> 2D (channels,
    total_samples)".  The tensor is split into its trials, one section for
    each, and the sections are joined along the sample axis; splitting
    into no section at all is a division by zero. *)
Definition cat_trials (x : tensor R) : result (matrix R) :=
  if dim0 x =? 0 then Raise ZeroDivisionError
  else Ok (mkMat (dim1 x) (dim0 x * dim2 x)
             (fun c j => tget x (j / dim2 x) c (j mod dim2 x))).

(** The state of the simulation loops: the arrays [y] and [res], and the
    noise source. *)
Record sim_state (G : Type) : Type :=
  mkSim { sim_y : tensor R; sim_res : tensor R; sim_noise : G }.

Section Simulate.
Variable G : Type.
Variable noisefunc : G -> vector R * G.

(** [e = noisefunc(); res[i, :, s] = e; y[i, :, s] = e] *)
Definition draw_sample (i s : nat) (st : sim_state G) : result (sim_state G) :=
  let (e, g) := noisefunc (sim_noise st) in
  res <- set_row (sim_res st) i s e ;;
  y <- set_row (sim_y st) i s e ;;
  Ok (mkSim y res g).

(** [y[i, :, s] += self.coef[:, (k - 1)::p].dot(y[i - k, :, s])] *)
Definition feed_back (coef : matrix R) (p i s k : nat) (st : sim_state G)
  : result (sim_state G) :=
  b <- cols_from_step coef (k - 1) p ;;
  v <- dotv b (get_row (sim_y st) (i - k) s) ;;
  y <- iadd_row (sim_y st) i s v ;;
  Ok (mkSim y (sim_res st) (sim_noise st)).

Definition simulate_trial (coef : matrix R) (p n s : nat) (st : sim_state G)
  : result (sim_state G) :=
  st <- for_each (range 0 p) (fun i st => draw_sample i s st) st ;;
  for_each (range p n)
    (fun i st =>
       st <- draw_sample i s st ;;
       for_each (range 1 (p + 1)) (feed_back coef p i s) st)
    st.

(** [simulate(self, l, noisefunc)] with the noise source made explicit.
    Returns the store, the model, the generated data and the noise
    source after the draws. *)
Definition simulate_with (h : heap R) (self : VARBase) (l : length_arg) (g : G)
  : result (heap R * VARBase * tensor R * G) :=
  coef <- coef_for_shape h self unpack_error ;;
  let m := nrows coef in
  let n := ncols coef in
  p <- floordiv n m ;;
  let (l, t) := match l with
                | Samples l => (l, 1)
                | SamplesTrials l t => (l, t)
                end in
  let n := l + 10 * p in
  let y := zeros3 n m t in
  let res := zeros3 n m t in
  st <- for_each (range 0 t) (simulate_trial coef p n) (mkSim y res g) ;;
  let residuals := drop_transpose (sim_res st) (10 * p) in
  let (h1, r1) := alloc h (Arr3 residuals) in
  cat <- cat_trials residuals ;;
  let (h2, r2) := alloc h1 (np_cov (transpose cat)) in
  Ok (h2,
      set_residuals self r1 r2,
      drop_transpose (sim_y st) (10 * p),
      sim_noise st).
End Simulate.

(** *** [_construct_var_eqns] *)

(** [np.zeros((r, c))] for a row count computed on Python's integers. *)
Definition zeros_rows (r : Z) (c : nat) : result (matrix R) :=
  if (r <? 0)%Z then Raise (ValueError "negative dimensions are not allowed")
  else Ok (zeros (Z.to_nat r) c).

(** [np.reshape(data[:, lo:hi, i], n)]: the slice has shape
    (t, hi' - lo') and is flattened row by row.  Its size must be [n];
    a negative [n] stands for the one dimension numpy infers. *)
Definition reshape_lagged (data : tensor R) (lo hi : Z) (i : nat) (n : Z)
  : result (vector R) :=
  let lo' := slice_bound lo (dim1 data) in
  let hi' := slice_bound hi (dim1 data) in
  let w := hi' - lo' in
  let size := dim0 data * w in
  if (n <? 0)%Z || (n =? Z.of_nat size)%Z
  then Ok (mkVec size (fun r => tget data (r / w) (lo' + r mod w) i))
  else Raise (ValueError "cannot reshape array").

(** [x[:n, c] = v] for a column [c] of [x]. *)
Definition set_col_prefix (x : matrix R) (n : Z) (c : nat) (v : vector R)
  : result (matrix R) :=
  let n' := slice_bound n (nrows x) in
  if bc_ok (vlen v) n'
  then Ok (mkMat (nrows x) (ncols x)
             (fun r c' =>
                if (c' =? c) && (r <? n') then vget v (bc_idx (vlen v) r)
                else mget x r c'))
  else Raise broadcast_error.

(** [np.fill_diagonal(x[n:, :], delta)] for a row [n] of [x]: the entries
    [(n + d, d)] that exist. *)
Definition fill_diagonal_from (x : matrix R) (n : nat) (delta : R) : matrix R :=
  mkMat (nrows x) (ncols x)
    (fun r c => if (n <=? r) && (r - n =? c) then delta else mget x r c).

Definition _construct_var_eqns (data : tensor R) (p : nat) (delta : option R)
  : result (matrix R * matrix R) :=
  let t := dim0 data in
  let l := dim1 data in
  let m := dim2 data in
  (* number of linear relations *)
  let n := ((Z.of_nat l - Z.of_nat p) * Z.of_nat t)%Z in
  let rows := match delta with
              | None => n
              | Some _ => (n + Z.of_nat (m * p))%Z
              end in
  (* Construct matrix x (predictor variables) *)
  x <- zeros_rows rows (m * p) ;;
  x <- for_each (range 0 m)
         (fun i x =>
            for_each (range 1 (p + 1))
              (fun k x =>
                 v <- reshape_lagged data (Z.of_nat p - Z.of_nat k)
                                     (- Z.of_nat k) i n ;;
                 set_col_prefix x n (i * p + k - 1) v)
              x)
         x ;;
  let x := match delta with
           | None => x
           | Some d => fill_diagonal_from x (slice_bound n (nrows x)) d
           end in
  (* Construct vectors yi (response variables for each channel i) *)
  y <- zeros_rows rows m ;;
  y <- for_each (range 0 m)
         (fun i y =>
            v <- reshape_lagged data (Z.of_nat p) (Z.of_nat l) i n ;;
            set_col_prefix y n i v)
         y ;;
  Ok (x, y).

(** [VARBase._construct_eqns] *)
Definition _construct_eqns (self : VARBase) (data : tensor R)
  : result (matrix R * matrix R) :=
  _construct_var_eqns data (p self) None.

(** *** The whiteness test *)

(** [q[r, c] = x] *)
Definition set_entry (q : matrix R) (r c : nat) (x : R) : matrix R :=
  mkMat (nrows q) (ncols q)
    (fun i j => if (i =? r) && (j =? c) then x else mget q i j).

(** [q *= x] and [q[r, :] *= x] *)
Definition scale (q : matrix R) (x : R) : matrix R :=
  mkMat (nrows q) (ncols q) (fun i j => rmul (mget q i j) x).
Definition scale_row (q : matrix R) (r : nat) (x : R) : matrix R :=
  mkMat (nrows q) (ncols q)
    (fun i j => if i =? r then rmul (mget q i j) x else mget q i j).

(** [np.cumsum(q, axis=1)] *)
Definition cumsum (q : matrix R) : matrix R :=
  mkMat (nrows q) (ncols q) (fun i j => rsum (j + 1) (fun x => mget q i x)).

(** [a / b] for two Python ints. *)
Definition int_truediv (a b : Z) : result R :=
  if (b =? 0)%Z then Raise ZeroDivisionError
  else Ok (rdiv (of_int a) (of_int b)).

(** [tmp = a.dot(b).trace()] for lag [l], with the factorisation [c0f]
    of the covariance matrix. *)
Definition q_term (x : tensor R) (c0f : lu) (l : nat) : result R :=
  cl <- acm x l ;;
  (* calculate tr(cl' * c0^-1 * cl * c0^-1) *)
  a <- lu_solve c0f cl ;;
  b <- lu_solve c0f (transpose cl) ;;
  ab <- dot a b ;;
  Ok (trace ab).

Definition _calc_q_statistic (x : tensor R) (h : nat) (nt : Z)
  : result (matrix R) :=
  let m := dim1 x in
  (* covariance matrix of x *)
  c0 <- acm x 0 ;;
  (* LU factorization of covariance matrix *)
  c0f <- lu_factor c0 ;;
  q <- for_each (range 1 (h + 1))
         (fun l q =>
            tmp <- q_term x c0f l ;;
            (* Box-Pierce *)
            let q := set_entry q 0 l tmp in
            (* Ljung-Box *)
            let q := set_entry q 1 l (rdiv tmp (of_int (nt - Z.of_nat l))) in
            (* Li-McLeod *)
            Ok (set_entry q 2 l tmp))
         (zeros 3 (h + 1)) ;;
  let q := scale q (of_int nt) in
  let q := scale_row q 1 (of_int (nt + 2)) in
  let q := cumsum q in
  for_each (range 1 (h + 1))
    (fun l q =>
       corr <- int_truediv (Z.of_nat (m * m * l * (l + 1))) (2 * nt) ;;
       Ok (set_entry q 2 l (radd (mget q 0 l) corr)))
    q.

(** [_calc_q_h0]: the statistic of [n] permuted copies of [x], in the order
    of submission. *)
Fixpoint _calc_q_h0 (n : nat) (x : tensor R) (h : nat) (nt : Z) (g : rng)
  : result (list (matrix R)) :=
  match n with
  | 0 => Ok []
  | S n' =>
      let (x', g') := rng_permutation g x in
      q <- _calc_q_statistic x' h nt ;;
      qs <- _calc_q_h0 n' x h nt g' ;;
      Ok (q :: qs)
  end.

(** [np.array(qs)[:, 2, -1]]; an empty list gives an array of rank 1. *)
Definition last_li_mcleod (qs : list (matrix R)) : result (list R) :=
  match qs with
  | [] => Raise (IndexError "too many indices for array")
  | _ => Ok (map (fun q => mget q 2 (ncols q - 1)) qs)
  end.

(** [np.sum(q0 >= q)] *)
Definition count_ge (q0 : list R) (q : R) : nat :=
  List.length (filter (fun x => rge x q) q0).

(** What [test_whiteness] returns: [pr], or [(pr, q0, q)] when [get_q]. *)
Inductive whiteness : Type :=
| PValue (pr : Q)
| PValueQ (pr : Q) (q0 : list R) (q : R).

Definition p_value (w : whiteness) : Q :=
  match w with
  | PValue pr => pr
  | PValueQ pr _ _ => pr
  end.

(** [data[:, :, p:]] *)
Definition drop_samples (data : tensor R) (p : nat) : tensor R :=
  let p' := Nat.min p (dim2 data) in
  mkTen (dim0 data) (dim1 data) (dim2 data - p')
    (fun s i j => tget data s i (p' + j)).

(** The module level function [test_whiteness]. *)
Definition test_whiteness (data : tensor R) (h p repeats : nat) (get_q : bool)
    (random_state : rng) : result whiteness :=
  let res := drop_samples data p in
  let t := dim0 res in
  let n := dim2 res in
  let nt := ((Z.of_nat n - Z.of_nat p) * Z.of_nat t)%Z in
  qs <- _calc_q_h0 repeats res h nt random_state ;;
  q0 <- last_li_mcleod qs ;;
  qm <- _calc_q_statistic res h nt ;;
  let q := mget qm 2 (ncols qm - 1) in
  let pr := (inject_Z (Z.of_nat (count_ge q0 q)) / inject_Z (Z.of_nat repeats))%Q in
  if get_q then Ok (PValueQ pr q0 q) else Ok (PValue pr).

(** The method [VARBase.test_whiteness]. *)
Definition VARBase_test_whiteness (h : heap R) (self : VARBase) (lag repeats : nat)
    (get_q : bool) (random_state : rng) : result whiteness :=
  match residuals self with
  | None => Raise (TypeError "'NoneType' object is not subscriptable")
  | Some r =>
      match load h r with
      | Arr3 data => test_whiteness data lag (p self) repeats get_q random_state
      | _ => Raise (IndexError "too many indices for array")
      end
  end.

End VAR.

(* ------------------------------------------------------------------ *)
(** ** Concrete collaborators and inputs

    An instance of [Externals] over the integers, and arrays written as
    lists of rows, on which the model can be run. *)

Section Literals.
Context {R : Type} `{Scalar R}.

Definition vector_of (l : list R) : vector R :=
  mkVec (List.length l) (fun i => nth i l rO).

Definition matrix_of (rows : list (list R)) : matrix R :=
  mkMat (List.length rows) (List.length (hd [] rows))
    (fun i j => nth j (nth i rows []) rO).

Definition tensor_of (trials : list (list (list R))) : tensor R :=
  mkTen (List.length trials) (List.length (hd [] trials))
    (List.length (hd [] (hd [] trials)))
    (fun s i j => nth j (nth i (nth s trials []) []) rO).

Definition matrix_rows (a : matrix R) : list (list R) :=
  map (fun i => map (fun j => mget a i j) (seq 0 (ncols a))) (seq 0 (nrows a)).

Definition tensor_rows (a : tensor R) : list (list (list R)) :=
  map (fun s =>
         map (fun i => map (fun j => tget a s i j) (seq 0 (dim2 a)))
             (seq 0 (dim1 a)))
      (seq 0 (dim0 a)).
End Literals.

(** A solver that knows the solution of [I x = b] only. *)
Definition is_identity (a : matrix Z) : bool :=
  (nrows a =? ncols a) &&
  forallb (fun i =>
             forallb (fun j => Z.eqb (mget a i j) (if Nat.eqb i j then 1%Z else 0%Z))
                     (seq 0 (ncols a)))
          (seq 0 (nrows a)).

Definition solve_identity (a b : matrix Z) : option (matrix Z) :=
  if is_identity a && (nrows a =? nrows b) then Some b else None.

(** The lagged product sums over all trials; a lag that the samples do
    not reach is refused. *)
Definition acm_sums (x : tensor Z) (l : nat) : result (matrix Z) :=
  if dim2 x <=? l then Raise (AttributeError "lag exceeds data length")
  else Ok (mkMat (dim1 x) (dim1 x)
             (fun i j =>
                rsum (dim0 x)
                  (fun s => rsum (dim2 x - l)
                              (fun n => (tget x s j (n + l) * tget x s i n)%Z)))).

(** The products of the columns of an array of observations. *)
Definition column_products (x : matrix Z) : ndarray Z :=
  Arr2 (mkMat (ncols x) (ncols x)
          (fun i j => rsum (nrows x) (fun n => (mget x n i * mget x n j)%Z))).

(** The samples of every trial, rotated by [k] places. *)
Definition rotate_samples (k : nat) (x : tensor Z) : tensor Z :=
  mkTen (dim0 x) (dim1 x) (dim2 x)
    (fun s i n => tget x s i ((n + k) mod dim2 x)).

(** Collaborators over the integers.  The linear solvers know the identity
    matrix only: [lu_factor] keeps its argument, and [lu_solve] answers as
    for [c0 = I]. *)
#[global] Instance Externals_Z : Externals Z := {
  config_verbose := false;
  linalg_solve := solve_identity;
  eig_all_abs_lt_1 := fun _ => true;
  acm := acm_sums;
  lu := matrix Z;
  lu_factor := fun c0 => Ok c0;
  lu_solve := fun _ b => Ok b;
  np_cov := column_products;
  rng := nat;
  rng_normal := fun g m => (mkVec m (fun c => Z.of_nat (g + c)), S g);
  rng_permutation := fun g x => (rotate_samples (S g) x, S g)
}.

(** The model of the first stability scenario: two channels, order one,
    [coef = [[0.5, 0], [0, 0.5]]]. *)
Definition coef_half : matrix Q := matrix_of [[1 # 2; 0]; [0; 1 # 2]]%Q.
Definition heap_half : heap Q := fst (alloc empty_heap (Arr2 coef_half)).
Definition var_half : VARBase :=
  mkVAR 1 (Some (Whole 0)) None None (Some 1) false.

(* ------------------------------------------------------------------ *)
(** ** Properties *)

(** *** Stability test *)

(** C1.  For the model with two channels, order one and
    [coef = [[0.5, 0], [0, 0.5]]], [is_stable] does not answer: whatever the
    eigenvalue routine would say, the call raises the [ValueError] of
    [np.hstack], because for [p = 1] the identity block has [m] rows and the
    block of zeros stacked beside it has [m * (p - 1) = 0] rows. *)
Theorem is_stable_half_raises :
  forall E : Externals Q,
    @is_stable Q Scalar_Q E heap_half var_half = Raise shape_error.
Proof.
  intros E. reflexivity.
Qed.

Section CopyProperties.
Context {R : Type} {SR : Scalar R} {E : Externals R}.

Definition none_copy_error : exn :=
  AttributeError "'NoneType' object has no attribute 'copy'".

Lemma array_copy_some (h : heap R) (r : aref) :
  array_copy h (Some r) =
  Ok (fst (alloc h (load h r)), Some (Whole (next h))).
Proof. reflexivity. Qed.

Lemma next_alloc (h : heap R) (a : ndarray R) :
  next (fst (alloc h a)) = S (next h).
Proof. reflexivity. Qed.

Lemma load_alloc_new (h : heap R) (a : ndarray R) :
  load (fst (alloc h a)) (Whole (next h)) = a.
Proof. simpl. now rewrite Nat.eqb_refl. Qed.

(** An array object of the store [h]: its buffer has been allocated. *)
Definition allocated (h : heap R) (r : aref) : Prop :=
  match r with
  | Whole l => l < next h
  | Item l _ => l < next h
  end.

Lemma load_alloc_old (h : heap R) (a : ndarray R) (r : aref) :
  allocated h r -> load (fst (alloc h a)) r = load h r.
Proof.
  destruct r as [l | l i]; simpl; intros Hl;
    destruct (Nat.eqb_spec l (next h)); try lia; reflexivity.
Qed.

Lemma allocated_alloc (h : heap R) (a : ndarray R) (r : aref) :
  allocated h r -> allocated (fst (alloc h a)) r.
Proof. destruct r; simpl; lia. Qed.

(** Writing through an array object allocated in [h] does not touch the
    buffers at or beyond [next h]. *)
Lemma load_store2_fresh (h' h : heap R) (r : aref) (m : matrix R) (l : loc) :
  allocated h r -> next h <= l ->
  load (store2 h' r m) (Whole l) = load h' (Whole l).
Proof.
  destruct r as [l0 | l0 i]; simpl; intros Hr Hl.
  - destruct (Nat.eqb_spec l l0); [lia | reflexivity].
  - destruct (cells h' l0); simpl; try reflexivity.
    destruct (Nat.eqb_spec l l0); [lia | reflexivity].
Qed.

(** C7 (amended).  [copy] on a model one of whose fields [coef],
    [residuals], [rescov] is still [None] raises the [AttributeError] of
    calling [.copy()] on [None].  When the three fields are arrays of the
    store, [copy] returns a model with the same [p] whose three fields are
    three fresh array objects with the contents of the originals; the
    arrays already in the store are unchanged, and a later write through an
    original array does not change the contents of the copy. *)
Theorem copy_spec (h : heap R) (self : VARBase) :
  (coef self = None \/ residuals self = None \/ rescov self = None ->
   copy h self = Raise none_copy_error)
  /\
  (forall c r v,
      coef self = Some c -> residuals self = Some r -> rescov self = Some v ->
      allocated h c -> allocated h r -> allocated h v ->
      exists h' other,
        copy h self = Ok (h', other)
        /\ p other = p self
        /\ coef other = Some (Whole (next h))
        /\ residuals other = Some (Whole (next h + 1))
        /\ rescov other = Some (Whole (next h + 2))
        /\ load h' (Whole (next h)) = load h c
        /\ load h' (Whole (next h + 1)) = load h r
        /\ load h' (Whole (next h + 2)) = load h v
        /\ (forall x, allocated h x -> load h' x = load h x)
        /\ (forall x m l, allocated h x -> next h <= l ->
                          load (store2 h' x m) (Whole l) = load h' (Whole l))).
Proof.
  split.
  - intros Hnone. unfold copy.
    destruct (coef self) as [c|]; [|reflexivity].
    rewrite array_copy_some. cbn [bind].
    destruct (residuals self) as [r|]; [|reflexivity].
    rewrite array_copy_some. cbn [bind].
    destruct (rescov self) as [v|]; [|reflexivity].
    destruct Hnone as [Hn | [Hn | Hn]]; discriminate.
  - intros c r v Hc Hr Hv Ac Ar Av.
    unfold copy. rewrite Hc, Hr, Hv.
    rewrite !array_copy_some. cbn [bind].
    set (h1 := fst (alloc h (load h c))).
    set (h2 := fst (alloc h1 (load h1 r))).
    set (h3 := fst (alloc h2 (load h2 v))).
    assert (N1 : next h1 = S (next h)) by reflexivity.
    assert (N2 : next h2 = S (S (next h))) by reflexivity.
    assert (O1 : forall x, allocated h x -> load h1 x = load h x)
      by (intros; now apply load_alloc_old).
    assert (A1 : forall x, allocated h x -> allocated h1 x)
      by (intros; now apply allocated_alloc).
    assert (O2 : forall x, allocated h1 x -> load h2 x = load h1 x)
      by (intros; now apply load_alloc_old).
    assert (A2 : forall x, allocated h1 x -> allocated h2 x)
      by (intros; now apply allocated_alloc).
    assert (O3 : forall x, allocated h2 x -> load h3 x = load h2 x)
      by (intros; now apply load_alloc_old).
    exists h3. eexists. split; [reflexivity|].
    cbn [p coef residuals rescov init].
    replace (next h + 1) with (next h1) by lia.
    replace (next h + 2) with (next h2) by lia.
    repeat split.
    + rewrite O3, O2 by (simpl; lia). apply load_alloc_new.
    + rewrite O3 by (simpl; lia).
      unfold h2. rewrite load_alloc_new. now apply O1.
    + unfold h3. rewrite load_alloc_new. rewrite O2, O1; auto.
    + intros x Ax. rewrite O3, O2, O1; auto.
    + intros x m l Ax Hl.
      now apply load_store2_fresh with (h := h).
Qed.

End CopyProperties.

(** *** Loops and sums *)

Section Loops.

(** A loop over [seq a n] that keeps an invariant indexed by the loop
    variable runs to its end and establishes the invariant there. *)
Lemma for_each_seq_inv (S : Type) (body : nat -> S -> result S)
      (Inv : nat -> S -> Prop) :
  forall n a st,
    Inv a st ->
    (forall k s, a <= k < a + n -> Inv k s ->
                 exists s', body k s = Ok s' /\ Inv (Datatypes.S k) s') ->
    exists s', for_each (seq a n) body st = Ok s' /\ Inv (a + n) s'.
Proof.
  induction n as [|n IH]; intros a st H0 Hstep; simpl.
  - exists st. rewrite Nat.add_0_r. auto.
  - destruct (Hstep a st) as [s1 [E1 I1]]; [lia | assumption |].
    rewrite E1. cbn [bind].
    destruct (IH (Datatypes.S a) s1 I1) as [s' [E' I']].
    + intros k s Hk. apply Hstep. lia.
    + exists s'. split; [assumption|].
      replace (a + Datatypes.S n) with (Datatypes.S a + n) by lia. assumption.
Qed.

Lemma for_each_range_inv (S : Type) (body : nat -> S -> result S)
      (Inv : nat -> S -> Prop) (a b : nat) (st : S) :
  a <= b ->
  Inv a st ->
  (forall k s, a <= k < b -> Inv k s ->
               exists s', body k s = Ok s' /\ Inv (Datatypes.S k) s') ->
  exists s', for_each (range a b) body st = Ok s' /\ Inv b s'.
Proof.
  intros Hab H0 Hstep. unfold range.
  destruct (@for_each_seq_inv S body Inv (b - a) a st H0) as [s' [E' I']].
  - intros k s Hk. apply Hstep. lia.
  - exists s'. split; [assumption|].
    replace b with (a + (b - a)) by lia. assumption.
Qed.

Lemma map_result_ok (A B : Type) (f : A -> result B) (g : A -> B) (xs : list A) :
  (forall x, In x xs -> f x = Ok (g x)) ->
  map_result f xs = Ok (map g xs).
Proof.
  induction xs as [|x xs IH]; intros Hf; simpl; [reflexivity|].
  rewrite Hf by (now left). cbn [bind].
  rewrite IH by (intros; apply Hf; now right). reflexivity.
Qed.

End Loops.

Section Sums.
Context {R : Type} {SR : Scalar R}.
Hypothesis Rth : ring_theory rO rI radd rmul rsub ropp (@eq R).
Add Ring Rring : Rth.

Lemma rsum_S (n : nat) (f : nat -> R) :
  rsum (S n) f = radd (rsum n f) (f n).
Proof.
  unfold rsum. rewrite seq_S, fold_left_app. reflexivity.
Qed.

Lemma rsum_0 (f : nat -> R) : rsum 0 f = rO.
Proof. reflexivity. Qed.

Lemma rsum_ext (n : nat) (f g : nat -> R) :
  (forall k, k < n -> f k = g k) -> rsum n f = rsum n g.
Proof.
  induction n as [|n IH]; intros Hfg; [reflexivity|].
  rewrite !rsum_S, IH, Hfg by (intros; auto with arith). reflexivity.
Qed.

(** Subtracting the terms one after the other subtracts their sum. *)
Lemma fold_sub_rsum (n : nat) (f : nat -> R) (a : R) :
  fold_left (fun acc k => rsub acc (f k)) (seq 0 n) a = rsub a (rsum n f).
Proof.
  induction n as [|n IH].
  - simpl. rewrite rsum_0. ring.
  - rewrite seq_S, fold_left_app, IH, rsum_S. simpl. ring.
Qed.

(** Adding the terms one after the other adds their sum. *)
Lemma fold_add_rsum (n : nat) (f : nat -> R) (a : R) :
  fold_left (fun acc k => radd acc (f k)) (seq 0 n) a = radd a (rsum n f).
Proof.
  induction n as [|n IH].
  - simpl. rewrite rsum_0. ring.
  - rewrite seq_S, fold_left_app, IH, rsum_S. simpl. ring.
Qed.

Lemma rsum_scale (n : nat) (f : nat -> R) (x : R) :
  rsum n (fun k => rmul (f k) x) = rmul x (rsum n f).
Proof.
  induction n as [|n IH].
  - rewrite !rsum_0. ring.
  - rewrite !rsum_S, IH. ring.
Qed.

End Sums.

(** *** Yule-Walker estimation *)

Section StackLemmas.
Context {R : Type} {SR : Scalar R}.

(** Stacking blocks of [p0] rows and [n] columns below [acc], which
    already holds the blocks [pre]. *)
Lemma append_rows_blocks (p0 n : nat) (d : matrix R) :
  forall (l : list (matrix R)) (acc : matrix R) (pre : list (matrix R)),
    nrows acc = List.length pre * p0 ->
    ncols acc = n ->
    (forall q r x, q < List.length pre -> r < p0 ->
                   mget acc (q * p0 + r) x = mget (nth q pre d) r x) ->
    (forall b, In b l -> nrows b = p0 /\ ncols b = n) ->
    exists cat,
      for_each l (fun b acc => append_rows acc b) acc = Ok cat
      /\ nrows cat = (List.length pre + List.length l) * p0
      /\ ncols cat = n
      /\ (forall q r x, q < List.length pre + List.length l -> r < p0 ->
                        mget cat (q * p0 + r) x = mget (nth q (pre ++ l) d) r x).
Proof.
  induction l as [|b l IH]; intros acc pre Hr Hc Hget Hl.
  - exists acc. simpl. rewrite Nat.add_0_r, app_nil_r. auto.
  - destruct (Hl b (or_introl eq_refl)) as [Hbr Hbc].
    cbn [for_each]. unfold append_rows at 1.
    rewrite Hc, Hbc, Nat.eqb_refl. cbn [bind].
    match goal with
    | |- context [for_each l _ ?a] => set (acc' := a)
    end.
    destruct (IH acc' (pre ++ [b])%list) as [cat [E [Cr [Cc Cg]]]].
    + subst acc'. cbn [nrows]. rewrite Hr, Hbr, length_app. simpl. lia.
    + reflexivity.
    + intros q r x Hq Hrp. rewrite length_app in Hq. simpl in Hq.
      subst acc'. cbn [mget].
      destruct (Nat.ltb_spec (q * p0 + r) (nrows acc)) as [Hlt | Hge].
      * assert (q < List.length pre) by (rewrite Hr in Hlt; nia).
        rewrite app_nth1 by assumption. now apply Hget.
      * assert (q = List.length pre) by (rewrite Hr in Hge; nia). subst q.
        rewrite app_nth2, Nat.sub_diag by lia. simpl.
        f_equal. rewrite Hr. lia.
    + intros b' Hb'. apply Hl. now right.
    + exists cat. rewrite length_app in Cr, Cg. simpl in Cr, Cg.
      rewrite <- app_assoc in Cg. simpl in Cg.
      split; [assumption|]. split; [simpl; rewrite Cr; f_equal; lia|].
      split; [assumption|].
      intros q r x Hq Hrp. apply Cg; simpl in Hq; lia.
Qed.

Lemma vstack_blocks (p0 n : nat) (d : matrix R) (l : list (matrix R)) :
  l <> [] ->
  (forall b, In b l -> nrows b = p0 /\ ncols b = n) ->
  exists cat,
    vstack l = Ok cat
    /\ nrows cat = List.length l * p0
    /\ ncols cat = n
    /\ (forall q r x, q < List.length l -> r < p0 ->
                      mget cat (q * p0 + r) x = mget (nth q l d) r x).
Proof.
  destruct l as [|a l]; [congruence|]. intros _ Hl.
  destruct (Hl a (or_introl eq_refl)) as [Har Hac].
  destruct (@append_rows_blocks p0 n d l a [a]) as [cat [E [Cr [Cc Cg]]]].
  - simpl. lia.
  - assumption.
  - intros q r x Hq Hr. simpl in Hq. assert (q = 0) by lia. subst q. reflexivity.
  - intros b Hb. apply Hl. now right.
  - exists cat. simpl. auto.
Qed.

End StackLemmas.

Section ArrayFacts.
Context {R : Type} {SR : Scalar R}.

Lemma nrows_rows_between (c : matrix R) (lo hi : nat) :
  lo <= hi -> hi <= nrows c -> nrows (rows_between c lo hi) = hi - lo.
Proof. intros. unfold rows_between. simpl. lia. Qed.

Lemma mget_rows_between (c : matrix R) (lo hi r x : nat) :
  lo <= nrows c -> mget (rows_between c lo hi) r x = mget c (lo + r) x.
Proof.
  intros. unfold rows_between. simpl. now rewrite Nat.min_l by assumption.
Qed.

Lemma nth_map_seq (A : Type) (f : nat -> A) (n j : nat) (d : A) :
  j < n -> nth j (map f (seq 0 n)) d = f j.
Proof.
  intros Hj. rewrite nth_indep with (d' := f 0)
    by (rewrite length_map, length_seq; assumption).
  rewrite map_nth, seq_nth by assumption. reflexivity.
Qed.

Lemma bc_idx_lt (n i : nat) : i < n -> bc_idx n i = i.
Proof.
  intros Hi. unfold bc_idx. destruct (Nat.eqb_spec n 1); [lia | reflexivity].
Qed.

Lemma bc_ok_refl (n : nat) : bc_ok n n = true.
Proof. unfold bc_ok. now rewrite Nat.eqb_refl. Qed.

(** The number of elements of [i, i + p, i + 2p, ...] below [m * p]. *)
Lemma stride_count (m p i : nat) :
  i < p -> (m * p - i + (p - 1)) / p = m.
Proof.
  intros Hi.
  destruct m as [|m].
  - simpl. apply Nat.div_small. lia.
  - symmetry. apply Nat.div_unique with (r := p - 1 - i); [lia|].
    nia.
Qed.

End ArrayFacts.

Section YuleWalker.
Context {R : Type} {SR : Scalar R} {E : Externals R}.

(** C8.  When the number of autocorrelation matrices is not the model
    order plus one, [from_yw] raises the [ValueError] of its own guard.
    The equation holds for every solver: the guard is the first statement
    of the function and nothing is solved before it. *)
Theorem from_yw_wrong_count (h : heap R) (self : VARBase) (acms : loc) (n : nat) :
  len (cells h acms) = Ok n ->
  n <> p self + 1 ->
  from_yw h self acms = Raise acm_count_error.
Proof.
  intros Hlen Hn. unfold from_yw. rewrite Hlen. cbn [bind].
  destruct (Nat.eqb_spec n (p self + 1)); [contradiction | reflexivity].
Qed.

(** [C_block(k)], the rows of the solution [c] for lag [k = 1 .. p]
    ([c[bs:bs + n_channels, :]] with [bs = (k - 1) * n_channels]). *)
Definition c_block (c : matrix R) (m k : nat) : matrix R :=
  rows_between c ((k - 1) * m) ((k - 1) * m + m).

(** The entry [(i, j)] of [C_block(k)^T . acm(k)]. *)
Definition lag_product (c : matrix R) (t : tensor R) (m k i j : nat) : R :=
  rsum m (fun x => rmul (mget (transpose (c_block c m k)) i x)
                        (mget (acm_lambda t (Z.of_nat k)) x j)).

Section Run.
Variables (h : heap R) (self : VARBase) (acms : loc).
Variables (t : tensor R) (m : nat) (r rr c : matrix R).
Hypothesis Hcell : cells h acms = Arr3 t.
Hypothesis Hp : 1 <= p self.
Hypothesis Hlen : dim0 t = p self + 1.
Hypothesis Hd1 : dim1 t = m.
Hypothesis Hd2 : dim2 t = m.
Hypothesis Hm : 1 <= m.
Hypothesis Hr : concatenate_tail t = Ok r.
Hypothesis Hrr : block_toeplitz t (p self) = Ok rr.
Hypothesis Hsolve : linalg_solve rr r = Some c.
Hypothesis Hcr : nrows c = p self * m.
Hypothesis Hcc : ncols c = m.

(** The store after [k] passes of the residual covariance loop. *)
Definition yw_inv (k : nat) (h' : heap R) : Prop :=
  next h' = next h
  /\ (forall l, l <> acms -> cells h' l = cells h l)
  /\ exists t',
      cells h' acms = Arr3 t'
      /\ dim0 t' = dim0 t /\ dim1 t' = m /\ dim2 t' = m
      /\ (forall a i j, a <> 0 -> tget t' a i j = tget t a i j)
      /\ (forall i j, i < m -> j < m ->
            tget t' 0 i j =
            fold_left (fun acc k0 => rsub acc (lag_product c t m (k0 + 1) i j))
                      (seq 0 k) (tget t 0 i j)).

Lemma yw_inv_init : yw_inv 0 h.
Proof.
  split; [reflexivity|]. split; [reflexivity|].
  exists t. repeat split; auto.
Qed.

Lemma yw_step (k : nat) (h' : heap R) :
  0 <= k < p self -> yw_inv k h' ->
  exists h'', from_yw_step acms m c k h' = Ok h'' /\ yw_inv (S k) h''.
Proof.
  intros Hk (Hn & Hframe & t' & Ht' & D0 & D1 & D2 & Hrest & Hzero).
  unfold from_yw_step. rewrite Ht'. cbn [as_tensor bind].
  assert (Hlo : k * m <= nrows c) by (rewrite Hcr; nia).
  assert (Hhi : k * m + m <= nrows c) by (rewrite Hcr; nia).
  assert (Hnr : nrows (rows_between c (k * m) (k * m + m)) = m)
    by (rewrite nrows_rows_between; lia).
  assert (Hz : (0 <=? Z.of_nat (k + 1))%Z = true) by (apply Z.leb_le; lia).
  unfold dot.
  replace (ncols (transpose (rows_between c (k * m) (k * m + m)))) with m
    by (symmetry; exact Hnr).
  replace (nrows (acm_lambda t' (Z.of_nat (k + 1)))) with m
    by (unfold acm_lambda; rewrite Hz; simpl; auto).
  rewrite Nat.eqb_refl. cbn [bind].
  cbn [load]. rewrite Ht'. cbn [item as_matrix bind].
  unfold isub. cbn [nrows ncols transpose rows_between].
  replace (ncols (acm_lambda t' (Z.of_nat (k + 1)))) with m
    by (unfold acm_lambda; rewrite Hz; simpl; auto).
  rewrite Hcc, D1, D2, !bc_ok_refl. cbn [andb bind].
  eexists. split; [reflexivity|].
  unfold store2. rewrite Ht'.
  split; [exact Hn|].
  split.
  { intros l Hl. cbn [update cells].
    destruct (Nat.eqb_spec l acms); [contradiction | auto]. }
  eexists. split.
  { cbn [update cells]. rewrite Nat.eqb_refl. reflexivity. }
  cbn [dim0 dim1 dim2 tget].
  repeat split; auto.
  - intros a i j Ha. destruct (Nat.eqb_spec a 0); [contradiction | auto].
  - intros i j Hi Hj. rewrite Nat.eqb_refl. cbn [mget].
    rewrite seq_S, fold_left_app. cbn [fold_left Nat.add].
    rewrite <- Hzero by assumption.
    rewrite !bc_idx_lt by assumption.
    f_equal. unfold lag_product.
    apply rsum_ext. intros x Hx.
    unfold c_block. replace (k + 1 - 1) with k by lia.
    f_equal.
    unfold acm_lambda. rewrite Hz. cbn [mget].
    apply Hrest. rewrite Nat2Z.id. lia.
Qed.

(** The rows [c[j::m, :]], stacked for [j = 0 .. m - 1]. *)
Lemma yw_stack :
  exists cat,
    (rows <- map_result (fun j => rows_from_step c j m) (range 0 m) ;;
     vstack rows) = Ok cat
    /\ nrows cat = m * p self
    /\ ncols cat = m
    /\ (forall j k x, j < m -> k < p self ->
                      mget cat (j * p self + k) x = mget c (j + k * m) x).
Proof.
  assert (Hm0 : (m =? 0) = false) by (apply Nat.eqb_neq; lia).
  rewrite map_result_ok with
    (g := fun j => mkMat ((nrows c - j + (m - 1)) / m) (ncols c)
                     (fun r0 c0 => mget c (j + r0 * m) c0)).
  2:{ intros j _. unfold rows_from_step. now rewrite Hm0. }
  cbn [bind].
  match goal with
  | |- context [vstack ?l] =>
      destruct (@vstack_blocks R (p self) m (zeros 0 0) l)
        as [cat [Ec [Cr [Cc Cg]]]]
  end.
  - unfold range. destruct m; [lia | discriminate].
  - intros b Hb. apply in_map_iff in Hb. destruct Hb as [j [Hb Hj]].
    subst b. cbn [nrows ncols]. split; [|assumption].
    unfold range in Hj. apply in_seq in Hj.
    rewrite Hcr.
    apply stride_count. lia.
  - exists cat. rewrite length_map in Cr, Cg.
    unfold range in Cr, Cg. rewrite length_seq, Nat.sub_0_r in Cr, Cg.
    split; [assumption|]. split; [assumption|]. split; [assumption|].
    intros j k x Hj Hk.
    rewrite Cg by assumption.
    rewrite nth_map_seq by assumption. reflexivity.
Qed.

(** What one call of [from_yw] does, in full. *)
Lemma from_yw_run :
  exists h1 cat,
    from_yw h self acms =
      Ok (fst (alloc h1 (Arr2 (transpose cat))),
          set_coef self (Whole (next h1)) (Item acms 0))
    /\ yw_inv (p self) h1
    /\ nrows cat = m * p self
    /\ ncols cat = m
    /\ (forall j k x, j < m -> k < p self ->
                      mget cat (j * p self + k) x = mget c (j + k * m) x).
Proof.
  destruct (@for_each_range_inv (heap R) (from_yw_step acms m c) yw_inv
              0 (p self) h) as [h1 [E1 I1]];
    [lia | apply yw_inv_init | intros; apply yw_step; [lia | assumption] |].
  destruct yw_stack as [cat [Ec [Cr [Cc Cg]]]].
  exists h1, cat. split; [|auto].
  unfold from_yw. rewrite Hcell. cbn [len bind].
  rewrite Hlen, Nat.eqb_refl. cbn [negb as_tensor bind].
  rewrite Hr, Hrr. cbn [bind]. unfold solve. rewrite Hsolve. cbn [bind].
  rewrite Hd1, E1. cbn [bind].
  unfold bind in Ec |- *.
  destruct (map_result (fun j => rows_from_step c j m) (range 0 m))
    as [rows|e]; [|discriminate].
  rewrite Ec. reflexivity.
Qed.

End Run.
End YuleWalker.

Section YuleWalkerClaims.
Context {R : Type} {SR : Scalar R} {E : Externals R}.
Hypothesis Rth : ring_theory rO rI radd rmul rsub ropp (@eq R).

(** C2.  For a model order [p >= 1] and [p + 1] square autocorrelation
    matrices of [m] channels on which the block-Toeplitz solve succeeds
    with a solution [c] of the shape of the right-hand side, [from_yw]
    returns; the residual covariance it stores is
    [acm(0) - sum_{k=1..p} C_block(k)^T . acm(k)], and the coefficient
    matrix it stores has shape [(m, m * p)] with [coef[:, (k-1)::p]] equal
    to the [m] by [m] block [C_block(k)^T] for every lag [k = 1 .. p]. *)
Theorem from_yw_residual_and_layout
    (h : heap R) (self : VARBase) (acms : loc)
    (t : tensor R) (m : nat) (r rr c : matrix R) :
  cells h acms = Arr3 t ->
  acms < next h ->
  1 <= p self ->
  dim0 t = p self + 1 ->
  dim1 t = m -> dim2 t = m -> 1 <= m ->
  concatenate_tail t = Ok r ->
  block_toeplitz t (p self) = Ok rr ->
  linalg_solve rr r = Some c ->
  nrows c = p self * m -> ncols c = m ->
  exists h' self' cf rc rcov coefm,
    from_yw h self acms = Ok (h', self')
    /\ coef self' = Some cf /\ rescov self' = Some rc
    /\ load h' rc = Arr2 rcov /\ load h' cf = Arr2 coefm
    /\ nrows rcov = m /\ ncols rcov = m
    /\ (forall i j, i < m -> j < m ->
          mget rcov i j =
          rsub (mget (acm_lambda t 0) i j)
               (rsum (p self) (fun k0 => lag_product c t m (k0 + 1) i j)))
    /\ nrows coefm = m /\ ncols coefm = m * p self
    /\ (forall k, 1 <= k <= p self ->
          exists b,
            cols_from_step coefm (k - 1) (p self) = Ok b
            /\ nrows b = m /\ ncols b = m
            /\ (forall i j, i < m -> j < m ->
                  mget b i j = mget (transpose (c_block c m k)) i j)).
Proof.
  intros Hcell Halloc Hp Hlen Hd1 Hd2 Hm Hr Hrr Hsolve Hcr Hcc.
  destruct (from_yw_run h self acms Hcell Hp Hlen Hd1 Hd2 Hm Hr Hrr Hsolve Hcr Hcc)
    as (h1 & cat & Erun & Inv & Cr & Cc & Cg).
  destruct Inv as (Hn & Hframe & t' & Ht' & D0 & D1 & D2 & Hrest & Hzero).
  exists (fst (alloc h1 (Arr2 (transpose cat)))),
         (set_coef self (Whole (next h1)) (Item acms 0)),
         (Whole (next h1)), (Item acms 0),
         (mkMat (dim1 t') (dim2 t') (fun r0 c0 => tget t' 0 r0 c0)),
         (transpose cat).
  split; [exact Erun|].
  split; [reflexivity|]. split; [reflexivity|].
  split.
  { cbn [load alloc fst cells].
    destruct (Nat.eqb_spec acms (next h1)); [lia|].
    rewrite Ht'. reflexivity. }
  split; [apply load_alloc_new|].
  split; [exact D1|]. split; [exact D2|].
  split.
  { intros i j Hi Hj. cbn [mget].
    rewrite Hzero by assumption.
    rewrite (fold_sub_rsum Rth). reflexivity. }
  split; [exact Cc|]. split; [exact Cr|].
  intros k Hk.
  assert (Hp0 : (p self =? 0) = false) by (apply Nat.eqb_neq; lia).
  unfold cols_from_step. rewrite Hp0.
  eexists. split; [reflexivity|].
  cbn [nrows ncols mget transpose].
  split; [exact Cc|].
  split; [rewrite Cr; apply stride_count; lia|].
  intros i j Hi Hj.
  replace (k - 1 + j * p self) with (j * p self + (k - 1)) by lia.
  rewrite Cg by (assumption || lia).
  unfold c_block. rewrite mget_rows_between by (rewrite Hcr; nia).
  f_equal. lia.
Qed.

(** C10.  Under the same conditions [from_yw] changes the caller's array
    in place: after the call the first matrix of [acms] holds the
    residual covariance [acm(0) - sum_{k=1..p} C_block(k)^T . acm(k)], the
    other matrices are as before, and the model's [rescov] is the array
    object [acms[0]] itself, so that a later write through [acms[0]] is
    what [rescov] reads. *)
Theorem from_yw_overwrites_acms
    (h : heap R) (self : VARBase) (acms : loc)
    (t : tensor R) (m : nat) (r rr c : matrix R) :
  cells h acms = Arr3 t ->
  acms < next h ->
  1 <= p self ->
  dim0 t = p self + 1 ->
  dim1 t = m -> dim2 t = m -> 1 <= m ->
  concatenate_tail t = Ok r ->
  block_toeplitz t (p self) = Ok rr ->
  linalg_solve rr r = Some c ->
  nrows c = p self * m -> ncols c = m ->
  exists h' self' t',
    from_yw h self acms = Ok (h', self')
    /\ rescov self' = Some (Item acms 0)
    /\ cells h' acms = Arr3 t'
    /\ dim0 t' = dim0 t /\ dim1 t' = m /\ dim2 t' = m
    /\ (forall i j, i < m -> j < m ->
          tget t' 0 i j =
          rsub (tget t 0 i j)
               (rsum (p self) (fun k0 => lag_product c t m (k0 + 1) i j)))
    /\ (forall a i j, a <> 0 -> tget t' a i j = tget t a i j)
    /\ (forall w : matrix R,
          exists v, load (store2 h' (Item acms 0) w) (Item acms 0) = Arr2 v
                    /\ forall i j, mget v i j = mget w i j).
Proof.
  intros Hcell Halloc Hp Hlen Hd1 Hd2 Hm Hr Hrr Hsolve Hcr Hcc.
  destruct (from_yw_run h self acms Hcell Hp Hlen Hd1 Hd2 Hm Hr Hrr Hsolve Hcr Hcc)
    as (h1 & cat & Erun & Inv & Cr & Cc & Cg).
  destruct Inv as (Hn & Hframe & t' & Ht' & D0 & D1 & D2 & Hrest & Hzero).
  assert (Hc' : cells (fst (alloc h1 (Arr2 (transpose cat)))) acms = Arr3 t').
  { cbn [alloc fst cells].
    destruct (Nat.eqb_spec acms (next h1)); [lia | exact Ht']. }
  exists (fst (alloc h1 (Arr2 (transpose cat)))),
         (set_coef self (Whole (next h1)) (Item acms 0)), t'.
  split; [exact Erun|]. split; [reflexivity|].
  split; [exact Hc'|].
  split; [exact D0|]. split; [exact D1|]. split; [exact D2|].
  split.
  { intros i j Hi Hj. rewrite Hzero by assumption.
    apply (fold_sub_rsum Rth). }
  split; [exact Hrest|].
  intros w. unfold store2. rewrite Hc'.
  eexists. split.
  - cbn [load update cells]. rewrite Nat.eqb_refl. cbn [item]. reflexivity.
  - intros i j. reflexivity.
Qed.

End YuleWalkerClaims.

(** *** Instances of the Yule-Walker and copy theorems *)

(** Three autocorrelation matrices of two channels for a model of order
    two: [acm(0) = I], [acm(1) = 0], [acm(2) = [[1, 2], [3, 4]]]. *)
Definition acms_Z : tensor Z :=
  tensor_of [[[1; 0]; [0; 1]]; [[0; 0]; [0; 0]]; [[1; 2]; [3; 4]]]%Z.
Definition heap_yw : heap Z := fst (alloc empty_heap (Arr3 acms_Z)).
Definition var_yw : VARBase := init 2 (Some 1) (Some false).

Definition ring_Z : ring_theory (@rO Z _) rI radd rmul rsub ropp (@eq Z) :=
  InitialRing.Zth.

Lemma from_yw_residual_and_layout_witness :
  exists h' self' rc rcov,
    from_yw heap_yw var_yw 0 = Ok (h', self')
    /\ rescov self' = Some rc
    /\ load h' rc = Arr2 rcov
    /\ mget rcov 0 0 = (-9)%Z /\ mget rcov 1 1 = (-19)%Z.
Proof.
  edestruct (@from_yw_residual_and_layout Z Scalar_Z Externals_Z ring_Z
               heap_yw var_yw 0 acms_Z 2)
    as (h' & self' & cf & rc & rcov & coefm & Erun & _ & Hrc & Hload & _ &
        _ & _ & Hval & _);
    try reflexivity; try (simpl; lia).
  exists h', self', rc, rcov.
  split; [exact Erun|]. split; [exact Hrc|]. split; [exact Hload|].
  split.
  - rewrite (Hval 0 0) by (repeat constructor). reflexivity.
  - rewrite (Hval 1 1) by (repeat constructor). reflexivity.
Defined.

Lemma from_yw_overwrites_acms_witness :
  exists h' self' t',
    from_yw heap_yw var_yw 0 = Ok (h', self')
    /\ rescov self' = Some (Item 0 0)
    /\ cells h' 0 = Arr3 t'
    /\ tget acms_Z 0 0 0 = 1%Z /\ tget t' 0 0 0 = (-9)%Z
    /\ tget t' 2 1 0 = 3%Z.
Proof.
  edestruct (@from_yw_overwrites_acms Z Scalar_Z Externals_Z ring_Z
               heap_yw var_yw 0 acms_Z 2)
    as (h' & self' & t' & Erun & Hrc & Hcell & _ & _ & _ & Hzero & Hrest & _);
    try reflexivity; try (simpl; lia).
  exists h', self', t'.
  split; [exact Erun|]. split; [exact Hrc|]. split; [exact Hcell|].
  split; [reflexivity|].
  split.
  - rewrite (Hzero 0 0) by (repeat constructor). reflexivity.
  - rewrite Hrest by discriminate. reflexivity.
Defined.

(** Two matrices where a model of order two needs three. *)
Definition acms_short : tensor Z :=
  tensor_of [[[1; 0]; [0; 1]]; [[1; 2]; [3; 4]]]%Z.
Definition heap_short : heap Z := fst (alloc empty_heap (Arr3 acms_short)).

Lemma from_yw_wrong_count_witness :
  from_yw heap_short var_yw 0 = Raise acm_count_error.
Proof.
  apply (@from_yw_wrong_count Z Scalar_Z Externals_Z heap_short var_yw 0 2).
  - reflexivity.
  - discriminate.
Defined.

(** A fitted model of two channels and order one, with its three arrays. *)
Definition heap_fit : heap Z :=
  let h1 := fst (alloc empty_heap (Arr2 (matrix_of [[1; 0]; [0; 1]]%Z))) in
  let h2 := fst (alloc h1 (Arr3 (tensor_of [[[1; 2; 3]; [4; 5; 6]]]%Z))) in
  fst (alloc h2 (Arr2 (matrix_of [[2; 0]; [0; 2]]%Z))).
Definition var_fit : VARBase :=
  mkVAR 1 (Some (Whole 0)) (Some (Whole 1)) (Some (Whole 2)) (Some 1) false.

Lemma copy_spec_witness :
  exists h' other,
    copy heap_fit var_fit = Ok (h', other)
    /\ p other = 1
    /\ coef other = Some (Whole 3)
    /\ residuals other = Some (Whole 4)
    /\ rescov other = Some (Whole 5)
    /\ load h' (Whole 3) = load heap_fit (Whole 0).
Proof.
  edestruct (proj2 (@copy_spec Z Externals_Z heap_fit var_fit)
               (Whole 0) (Whole 1) (Whole 2))
    as (h' & other & Ecopy & Hp & Hc & Hr & Hv & Lc & _);
    try reflexivity; try (simpl; lia).
  exists h', other.
  repeat split; assumption.
Defined.

(** C7, as stated, fails: a model that has not been fitted has
    [coef = None], and copying it raises the attribute error of
    [None.copy()], not a dedicated invalid-state error. *)
Lemma copy_unfit_counterexample :
  coef (init 2 (Some 1) (Some false)) = None
  /\ copy (@empty_heap Z _) (init 2 (Some 1) (Some false)) =
     Raise (AttributeError "'NoneType' object has no attribute 'copy'").
Proof. split; reflexivity. Qed.

(** *** Prediction *)

Section Predict.
Context {R : Type} {SR : Scalar R} {E : Externals R}.

(** [sum_{k = 1 .. p} f k], accumulated in the order of the lag loop. *)
Definition sum_lags (p : nat) (f : nat -> R) : R :=
  fold_left (fun acc k => radd acc (f k)) (seq 1 p) rO.

(** The entry [i] of the lag-[k] coefficient block [coef[:, (k-1)::p]]
    applied to the sample [n - k] of trial [s], as the first branch
    computes it ([np.dot(data[:, :, n - k], bp.T)]) and as the second
    branch does ([np.dot(bp, data[s, :, (p - k):(l - k)])]). *)
Definition lag_term_T (coef : matrix R) (data : tensor R) (p k s i n : nat) : R :=
  rsum (dim1 data)
    (fun x => rmul (tget data s x (n - k)) (mget coef i (k - 1 + x * p))).

Definition lag_term (coef : matrix R) (data : tensor R) (p k s i n : nat) : R :=
  rsum (dim1 data)
    (fun x => rmul (mget coef i (k - 1 + x * p)) (tget data s x (n - k))).

Section Branches.
Variables (coef : matrix R) (data : tensor R) (p : nat).
Let t := dim0 data.
Let m := dim1 data.
Let l := dim2 data.
Hypothesis Hrows : nrows coef = m.
Hypothesis Hcols : ncols coef = m * p.

(** A partial result: shape of the data, and entries described by [f]
    on the samples from [lo] up to [hi], those of [y0] elsewhere. *)
Definition updated (y0 y : tensor R) (lo hi : nat)
    (f : nat -> nat -> nat -> R) : Prop :=
  dim0 y = dim0 y0 /\ dim1 y = dim1 y0 /\ dim2 y = dim2 y0
  /\ forall s i n, s < t -> i < m -> n < l ->
       (lo <= n < hi -> tget y s i n = f s i n)
       /\ (~ lo <= n < hi -> tget y s i n = tget y0 s i n).

Lemma cols_block (k : nat) :
  1 <= k <= p ->
  exists bp, cols_from_step coef (k - 1) p = Ok bp
             /\ nrows bp = m /\ ncols bp = m
             /\ forall i x, mget bp i x = mget coef i (k - 1 + x * p).
Proof.
  intros Hk. unfold cols_from_step.
  destruct (Nat.eqb_spec p 0); [lia|].
  eexists. split; [reflexivity|]. cbn [nrows ncols mget].
  split; [exact Hrows|]. split; [|reflexivity].
  rewrite Hcols. apply stride_count. lia.
Qed.

(** The sample loop of the first branch, for one lag. *)
Lemma lag_outer_samples (k : nat) (bp : matrix R) (y0 : tensor R) :
  1 <= k <= p ->
  nrows bp = m -> ncols bp = m ->
  (forall i x, mget bp i x = mget coef i (k - 1 + x * p)) ->
  dim0 y0 = t -> dim1 y0 = m -> dim2 y0 = l ->
  exists y,
    for_each (range p l)
      (fun n y => d <- dot (item_last data (n - k)) (transpose bp) ;;
                  iadd_last y n d) y0 = Ok y
    /\ updated y0 y p l
         (fun s i n => radd (tget y0 s i n) (lag_term_T coef data p k s i n)).
Proof.
  intros Hk Hbr Hbc Hbp H0 H1 H2.
  destruct (@for_each_seq_inv (tensor R)
              (fun n y => d <- dot (item_last data (n - k)) (transpose bp) ;;
                          iadd_last y n d)
              (fun hi y => updated y0 y p hi
                 (fun s i n => radd (tget y0 s i n)
                                    (lag_term_T coef data p k s i n)))
              (l - p) p y0) as [y [Ey Iy]].
  - repeat split; auto. intros; lia.
  - intros n y Hn (D0 & D1 & D2 & Hy).
    unfold dot. cbn [item_last transpose nrows ncols].
    fold m. rewrite Hbc, Nat.eqb_refl. cbn [bind].
    unfold iadd_last, iadd. cbn [item_last nrows ncols].
    rewrite D0, D1, H0, H1, Hbr. fold t.
    rewrite !bc_ok_refl. cbn [andb bind].
    eexists. split; [reflexivity|].
    unfold updated. cbn [dim0 dim1 dim2].
    split; [now rewrite H0|]. split; [now rewrite H1|].
    split; [exact D2|].
    intros s i x Hs Hi Hxl. cbn [tget mget item_last transpose].
    rewrite !bc_idx_lt by assumption.
    destruct (Hy s i x Hs Hi Hxl) as [Hin Hout].
    destruct (Hy s i n Hs Hi) as [_ Hout_n]; [lia|].
    destruct (Nat.eqb_spec x n) as [-> | Hne]; split; intros Hx; try lia.
    + rewrite Hout_n by lia. f_equal.
      unfold lag_term_T. fold m. apply rsum_ext. intros j Hj.
      now rewrite Hbp.
    + apply Hin. lia.
    + apply Hout. lia.
  - exists y. unfold range. split; [exact Ey|].
    destruct Iy as (D0 & D1 & D2 & Hy).
    repeat split; auto; intros Hn; apply Hy; auto; lia.
Qed.

(** The first branch. *)
Lemma predict_lag_outer_spec (y0 : tensor R) :
  dim0 y0 = t -> dim1 y0 = m -> dim2 y0 = l ->
  exists y,
    predict_lag_outer coef data p y0 = Ok y
    /\ updated y0 y p l
         (fun s i n =>
            fold_left (fun acc k => radd acc (lag_term_T coef data p k s i n))
                      (seq 1 p) (tget y0 s i n)).
Proof.
  intros H0 H1 H2. unfold predict_lag_outer, range.
  replace (p + 1 - 1) with p by lia.
  destruct (@for_each_seq_inv (tensor R)
              (fun k y =>
                 bp <- cols_from_step coef (k - 1) p ;;
                 for_each (seq p (dim2 data - p))
                   (fun n y => d <- dot (item_last data (n - k)) (transpose bp) ;;
                               iadd_last y n d) y)
              (fun k' y => updated y0 y p l
                 (fun s i n =>
                    fold_left (fun acc k => radd acc (lag_term_T coef data p k s i n))
                              (seq 1 (k' - 1)) (tget y0 s i n)))
              p 1 y0) as [y [Ey Iy]].
  - repeat split; auto.
  - intros k y Hk (D0 & D1 & D2 & Hy).
    destruct (cols_block (k := k)) as (bp & Ebp & Br & Bc & Bg); [lia|].
    rewrite Ebp. cbn [bind].
    destruct (@lag_outer_samples k bp y) as (y' & Ey' & D0' & D1' & D2' & Hy');
      try assumption; try lia; try congruence.
    exists y'. split; [exact Ey'|].
    split; [congruence|]. split; [congruence|]. split; [congruence|].
    intros s i n Hs Hi Hnl.
    destruct (Hy s i n Hs Hi Hnl) as [Hin Hout].
    destruct (Hy' s i n Hs Hi Hnl) as [Hin' Hout'].
    split; intros Hn.
    + rewrite Hin', Hin by assumption.
      replace (S k - 1) with (S (k - 1)) by lia.
      rewrite seq_S, fold_left_app. cbn [fold_left].
      replace (1 + (k - 1)) with k by lia. reflexivity.
    + rewrite Hout', Hout by assumption. reflexivity.
  - exists y. split; [exact Ey|].
    replace (1 + p - 1) with p in Iy by lia. exact Iy.
Qed.

(** The trial loop of the second branch, for one lag; this branch is
    only taken when [t <= l - p], hence with [p <= l]. *)
Lemma per_trial_trials (k : nat) (bp : matrix R) (y0 : tensor R) :
  p <= l ->
  1 <= k <= p ->
  nrows bp = m -> ncols bp = m ->
  (forall i x, mget bp i x = mget coef i (k - 1 + x * p)) ->
  dim0 y0 = t -> dim1 y0 = m -> dim2 y0 = l ->
  exists y,
    for_each (range 0 t)
      (fun s y =>
         d <- dot bp (trial_slice data s (Z.of_nat p - Z.of_nat k)
                                         (Z.of_nat l - Z.of_nat k)) ;;
         iadd_trial_from y s p d) y0 = Ok y
    /\ updated y0 y p l
         (fun s i n => radd (tget y0 s i n) (lag_term coef data p k s i n)).
Proof.
  intros Hpl Hk Hbr Hbc Hbp H0 H1 H2.
  assert (Hlo : slice_bound (Z.of_nat p - Z.of_nat k) (dim2 data) = p - k)
    by (unfold slice_bound, l in *;
        destruct (Z.ltb_spec (Z.of_nat p - Z.of_nat k) 0); lia).
  assert (Hhi : slice_bound (Z.of_nat l - Z.of_nat k) (dim2 data) = l - k)
    by (unfold slice_bound, l in *;
        destruct (Z.ltb_spec (Z.of_nat (dim2 data) - Z.of_nat k) 0); lia).
  destruct (@for_each_seq_inv (tensor R)
              (fun s y =>
                 d <- dot bp (trial_slice data s (Z.of_nat p - Z.of_nat k)
                                                 (Z.of_nat l - Z.of_nat k)) ;;
                 iadd_trial_from y s p d)
              (fun s' y =>
                 dim0 y = dim0 y0 /\ dim1 y = dim1 y0 /\ dim2 y = dim2 y0
                 /\ forall s i n, s < t -> i < m -> n < l ->
                      (s < s' /\ p <= n ->
                       tget y s i n =
                       radd (tget y0 s i n) (lag_term coef data p k s i n))
                      /\ (~ (s < s' /\ p <= n) -> tget y s i n = tget y0 s i n))
              t 0 y0) as [y [Ey Iy]].
  - repeat split; auto. intros; lia.
  - intros s y Hs (D0 & D1 & D2 & Hy).
    unfold dot, trial_slice. cbn [nrows ncols]. rewrite Hlo, Hhi.
    fold m. rewrite Hbc, Nat.eqb_refl. cbn [bind].
    unfold iadd_trial_from, iadd. cbn [nrows ncols].
    rewrite D1, D2, H1, H2, Hbr.
    replace (l - k - (p - k)) with (l - Nat.min p l) by lia.
    rewrite !bc_ok_refl. cbn [andb bind].
    eexists. split; [reflexivity|].
    cbn [dim0 dim1 dim2].
    split; [exact D0|]. split; [reflexivity|]. split; [reflexivity|].
    intros s' i x Hs' Hi Hx. cbn [tget mget].
    rewrite Nat.min_l by assumption.
    destruct (Hy s' i x Hs' Hi Hx) as [Hin Hout].
    destruct (Nat.eqb_spec s' s) as [-> | Hne];
      destruct (Nat.leb_spec p x) as [Hpx | Hpx]; cbn [andb];
      split; intros Hc; try lia.
    + rewrite !bc_idx_lt by lia.
      replace (p + (x - p)) with x by lia.
      destruct (Hy s i x Hs' Hi Hx) as [_ Hout_s].
      rewrite Hout_s by lia. f_equal.
      unfold lag_term. fold m. apply rsum_ext. intros j Hj.
      rewrite Hbp. f_equal. f_equal. lia.
    + apply Hout. lia.
    + apply Hin. lia.
    + apply Hout. lia.
    + apply Hout. lia.
  - exists y. unfold range. rewrite Nat.sub_0_r. split; [exact Ey|].
    destruct Iy as (D0 & D1 & D2 & Hy).
    repeat split; auto; intros Hn; apply Hy; auto; lia.
Qed.

(** The second branch, for data with at least [p] samples. *)
Lemma predict_per_trial_spec (y0 : tensor R) :
  p <= l ->
  dim0 y0 = t -> dim1 y0 = m -> dim2 y0 = l ->
  exists y,
    predict_per_trial coef data p y0 = Ok y
    /\ updated y0 y p l
         (fun s i n =>
            fold_left (fun acc k => radd acc (lag_term coef data p k s i n))
                      (seq 1 p) (tget y0 s i n)).
Proof.
  intros Hpl H0 H1 H2. unfold predict_per_trial, range.
  replace (p + 1 - 1) with p by lia.
  destruct (@for_each_seq_inv (tensor R)
              (fun k y =>
                 bp <- cols_from_step coef (k - 1) p ;;
                 for_each (seq 0 (dim0 data - 0))
                   (fun s y =>
                      d <- dot bp (trial_slice data s (Z.of_nat p - Z.of_nat k)
                                     (Z.of_nat (dim2 data) - Z.of_nat k)) ;;
                      iadd_trial_from y s p d) y)
              (fun k' y => updated y0 y p l
                 (fun s i n =>
                    fold_left (fun acc k => radd acc (lag_term coef data p k s i n))
                              (seq 1 (k' - 1)) (tget y0 s i n)))
              p 1 y0) as [y [Ey Iy]].
  - repeat split; auto.
  - intros k y Hk (D0 & D1 & D2 & Hy).
    destruct (cols_block (k := k)) as (bp & Ebp & Br & Bc & Bg); [lia|].
    rewrite Ebp. cbn [bind].
    destruct (@per_trial_trials k bp y) as (y' & Ey' & D0' & D1' & D2' & Hy');
      try assumption; try lia; try congruence.
    exists y'. split; [exact Ey'|].
    split; [congruence|]. split; [congruence|]. split; [congruence|].
    intros s i n Hs Hi Hnl.
    destruct (Hy s i n Hs Hi Hnl) as [Hin Hout].
    destruct (Hy' s i n Hs Hi Hnl) as [Hin' Hout'].
    split; intros Hn.
    + rewrite Hin', Hin by assumption.
      replace (S k - 1) with (S (k - 1)) by lia.
      rewrite seq_S, fold_left_app. cbn [fold_left].
      replace (1 + (k - 1)) with k by lia. reflexivity.
    + rewrite Hout', Hout by assumption. reflexivity.
  - exists y. split; [exact Ey|].
    replace (1 + p - 1) with p in Iy by lia. exact Iy.
Qed.

End Branches.
End Predict.

Section PredictClaims.
Context {R : Type} {SR : Scalar R} {E : Externals R}.
Hypothesis rmul_comm : forall a b : R, rmul a b = rmul b a.

Lemma lag_term_T_eq (coef : matrix R) (data : tensor R) (p k s i n : nat) :
  lag_term_T coef data p k s i n = lag_term coef data p k s i n.
Proof.
  unfold lag_term_T, lag_term. apply rsum_ext. intros; apply rmul_comm.
Qed.

Lemma fold_lag_terms (coef : matrix R) (data : tensor R) (p s i n q : nat) (a : R) :
  fold_left (fun acc k => radd acc (lag_term_T coef data p k s i n)) (seq 1 q) a =
  fold_left (fun acc k => radd acc (lag_term coef data p k s i n)) (seq 1 q) a.
Proof.
  generalize 1. revert a.
  induction q as [|q IH]; intros a b; simpl; [reflexivity|].
  now rewrite lag_term_T_eq, IH.
Qed.

(** The model reads its coefficients for data of [m] channels: [coef] is
    an array of shape [(m, m * p)]. *)
Definition fitted_for (h : heap R) (self : VARBase) (coefm : matrix R)
    (m p : nat) : Prop :=
  exists r, coef self = Some r /\ load h r = Arr2 coefm
            /\ nrows coefm = m /\ ncols coefm = m * p.

Lemma predict_unfold (h : heap R) (self : VARBase) (coefm : matrix R)
      (x : ndarray R) (p : nat) :
  fitted_for h self coefm (dim1 (atleast_3d x)) p ->
  1 <= dim1 (atleast_3d x) ->
  predict h self x =
  let d := atleast_3d x in
  if (Z.of_nat (dim0 d) >? Z.of_nat (dim2 d) - Z.of_nat p)%Z
  then predict_lag_outer coefm d p (zeros3 (dim0 d) (dim1 d) (dim2 d))
  else predict_per_trial coefm d p (zeros3 (dim0 d) (dim1 d) (dim2 d)).
Proof.
  intros (r & Hc & Hl & Hr & Hcl) Hm. unfold predict, coef_for_shape.
  rewrite Hc, Hl. cbn [as_matrix bind]. unfold floordiv.
  destruct (Nat.eqb_spec (dim1 (atleast_3d x)) 0); [lia|].
  cbn [bind]. rewrite Hcl, Nat.mul_comm, Nat.div_mul by lia. reflexivity.
Qed.

(** What [predict] returns on well-shaped input of any rank: an array of
    the shape of the normalised data, zero on the first [p] samples, and
    on each later sample the sum over the lags of the coefficient block
    applied to the earlier sample. *)
Lemma predict_spec (h : heap R) (self : VARBase) (coefm : matrix R)
      (x : ndarray R) (p : nat) :
  fitted_for h self coefm (dim1 (atleast_3d x)) p ->
  1 <= dim1 (atleast_3d x) ->
  exists y,
    predict h self x = Ok y
    /\ dim0 y = dim0 (atleast_3d x)
    /\ dim1 y = dim1 (atleast_3d x)
    /\ dim2 y = dim2 (atleast_3d x)
    /\ forall s i n, s < dim0 y -> i < dim1 y -> n < dim2 y ->
         (n < p -> tget y s i n = rO)
         /\ (p <= n ->
             tget y s i n =
             sum_lags p (fun k => lag_term coefm (atleast_3d x) p k s i n)).
Proof.
  intros Hfit Hm. rewrite (@predict_unfold h self coefm x p Hfit Hm). cbv zeta.
  destruct Hfit as (r & Hc & Hl & Hr & Hcl).
  set (d := atleast_3d x) in *.
  destruct (Z.gtb_spec (Z.of_nat (dim0 d)) (Z.of_nat (dim2 d) - Z.of_nat p)).
  - destruct (@predict_lag_outer_spec R SR coefm d p Hr Hcl
                (zeros3 (dim0 d) (dim1 d) (dim2 d)))
      as (y & Ey & D0 & D1 & D2 & Hy); try reflexivity.
    exists y. split; [exact Ey|]. cbn [zeros3 dim0 dim1 dim2] in D0, D1, D2.
    split; [exact D0|]. split; [exact D1|]. split; [exact D2|].
    intros s i n Hs Hi Hn. rewrite D0 in Hs. rewrite D1 in Hi. rewrite D2 in Hn.
    destruct (Hy s i n Hs Hi Hn) as [Hin Hout].
    split; intros Hpn.
    + rewrite Hout by lia. reflexivity.
    + rewrite Hin by lia. cbn [zeros3 tget]. unfold sum_lags.
      apply fold_lag_terms.
  - destruct (@predict_per_trial_spec R SR coefm d p Hr Hcl
                (zeros3 (dim0 d) (dim1 d) (dim2 d)))
      as (y & Ey & D0 & D1 & D2 & Hy); try reflexivity; [lia|].
    exists y. split; [exact Ey|]. cbn [zeros3 dim0 dim1 dim2] in D0, D1, D2.
    split; [exact D0|]. split; [exact D1|]. split; [exact D2|].
    intros s i n Hs Hi Hn. rewrite D0 in Hs. rewrite D1 in Hi. rewrite D2 in Hn.
    destruct (Hy s i n Hs Hi Hn) as [Hin Hout].
    split; intros Hpn.
    + rewrite Hout by lia. reflexivity.
    + rewrite Hin by lia. reflexivity.
Qed.

(** C3.  On a rank 2 input of shape (channels, samples) [predict] returns
    a rank 3 array of shape (1, channels, samples): the result does not
    have the shape of the input, which the docstring promises
    ([predicted : array, shape data.shape]).  Its entries are as
    described: zero on the first [p] samples, the sum of the lagged
    products afterwards. *)
Theorem predict_rank2_returns_rank3 (h : heap R) (self : VARBase)
    (coefm d : matrix R) (p : nat) :
  fitted_for h self coefm (nrows d) p ->
  1 <= nrows d ->
  exists y,
    predict h self (Arr2 d) = Ok y
    /\ shape (Arr3 y) = [1; nrows d; ncols d]
    /\ shape (Arr3 y) <> shape (Arr2 d)
    /\ forall i n, i < nrows d -> n < ncols d ->
         (n < p -> tget y 0 i n = rO)
         /\ (p <= n ->
             tget y 0 i n =
             sum_lags p (fun k => lag_term coefm (atleast_3d (Arr2 d)) p k 0 i n)).
Proof.
  intros Hfit Hm.
  destruct (@predict_spec h self coefm (Arr2 d) p Hfit Hm)
    as (y & Ey & D0 & D1 & D2 & Hy).
  cbn [atleast_3d dim0 dim1 dim2] in D0, D1, D2.
  exists y. split; [exact Ey|].
  split; [cbn [shape]; now rewrite D0, D1, D2|].
  split; [cbn [shape]; intros Heq; discriminate Heq|].
  intros i n Hi Hn. apply Hy; lia.
Qed.

(** C6 (amended).  On data with at least [p] samples the two loop
    strategies of [predict] both return, and return arrays of the same
    shape with the same entries.  On data with fewer than [p] samples
    [predict] takes the first strategy, whatever the number of trials. *)
Theorem predict_branches_agree (coefm : matrix R) (data : tensor R) (p : nat) :
  nrows coefm = dim1 data ->
  ncols coefm = dim1 data * p ->
  let y0 := zeros3 (dim0 data) (dim1 data) (dim2 data) in
  (p <= dim2 data ->
   exists y1 y2,
     predict_lag_outer coefm data p y0 = Ok y1
     /\ predict_per_trial coefm data p y0 = Ok y2
     /\ dim0 y1 = dim0 y2 /\ dim1 y1 = dim1 y2 /\ dim2 y1 = dim2 y2
     /\ forall s i n, s < dim0 y1 -> i < dim1 y1 -> n < dim2 y1 ->
                      tget y1 s i n = tget y2 s i n)
  /\ (dim2 data < p ->
      forall h self,
        fitted_for h self coefm (dim1 data) p -> 1 <= dim1 data ->
        predict h self (Arr3 data) = predict_lag_outer coefm data p y0).
Proof.
  intros Hr Hcl y0. split.
  - intros Hpl.
    destruct (@predict_lag_outer_spec R SR coefm data p Hr Hcl y0)
      as (y1 & E1 & A0 & A1 & A2 & H1); try reflexivity.
    destruct (@predict_per_trial_spec R SR coefm data p Hr Hcl y0)
      as (y2 & E2 & B0 & B1 & B2 & H2); try reflexivity; [exact Hpl|].
    exists y1, y2. split; [exact E1|]. split; [exact E2|].
    split; [congruence|]. split; [congruence|]. split; [congruence|].
    intros s i n Hs Hi Hn.
    subst y0. cbn [zeros3 dim0 dim1 dim2] in A0, A1, A2.
    rewrite A0 in Hs. rewrite A1 in Hi. rewrite A2 in Hn.
    destruct (H1 s i n Hs Hi Hn) as [Hin1 Hout1].
    destruct (H2 s i n Hs Hi Hn) as [Hin2 Hout2].
    destruct (le_lt_dec p n).
    + rewrite Hin1, Hin2 by lia. apply fold_lag_terms.
    + rewrite Hout1, Hout2 by lia. reflexivity.
  - intros Hlp h self Hfit Hm.
    rewrite (@predict_unfold h self coefm (Arr3 data) p Hfit Hm).
    cbn [atleast_3d]. cbv zeta.
    destruct (Z.gtb_spec (Z.of_nat (dim0 data))
                (Z.of_nat (dim2 data) - Z.of_nat p)); [reflexivity | lia].
Qed.

End PredictClaims.

(** *** Instances of the prediction theorems *)

(** Continuous data of two channels and three samples, and the same data
    as a single trial. *)
Definition data_rank2 : matrix Z := matrix_of [[1; 2; 3]; [4; 5; 6]]%Z.
Definition data_rank3 : tensor Z := tensor_of [[[1; 2; 3]; [4; 5; 6]]]%Z.
Definition coef_identity : matrix Z := matrix_of [[1; 0]; [0; 1]]%Z.

Lemma fitted_heap_fit : fitted_for heap_fit var_fit coef_identity 2 1.
Proof. exists (Whole 0). repeat split. Qed.

Lemma predict_rank2_returns_rank3_witness :
  exists y,
    predict heap_fit var_fit (Arr2 data_rank2) = Ok y
    /\ shape (Arr3 y) = [1; 2; 3]
    /\ shape (Arr2 data_rank2) = [2; 3]
    /\ tget y 0 1 0 = 0%Z
    /\ tget y 0 1 2 = 5%Z.
Proof.
  destruct (@predict_rank2_returns_rank3 Z Scalar_Z Z.mul_comm
              heap_fit var_fit coef_identity data_rank2 1 fitted_heap_fit
              (le_S 1 1 (le_n 1)))
    as (y & Ey & Hshape & _ & Hy).
  exists y. split; [exact Ey|]. split; [exact Hshape|]. split; [reflexivity|].
  split.
  - apply (Hy 1 0); simpl; lia.
  - destruct (Hy 1 2) as [_ Hge]; [simpl; lia | simpl; lia |].
    rewrite Hge by lia. reflexivity.
Defined.

Lemma predict_branches_agree_witness :
  exists y1 y2,
    predict_lag_outer coef_identity data_rank3 1 (zeros3 1 2 3) = Ok y1
    /\ predict_per_trial coef_identity data_rank3 1 (zeros3 1 2 3) = Ok y2
    /\ tget y1 0 1 2 = tget y2 0 1 2.
Proof.
  destruct (proj1 (@predict_branches_agree Z Scalar_Z Z.mul_comm
                     coef_identity data_rank3 1 eq_refl eq_refl))
    as (y1 & y2 & E1 & E2 & D0 & D1 & D2 & Hy).
  - simpl; lia.
  - exists y1, y2. split; [exact E1|]. split; [exact E2|].
    assert (A0 : dim0 y1 = 1 /\ dim1 y1 = 2 /\ dim2 y1 = 3).
    { cbv in E1. injection E1 as <-. repeat split. }
    apply Hy; lia.
Defined.

(** C6, as stated, fails: with a coefficient matrix of order four and one
    trial of three samples the first strategy returns (an array of zeros),
    while the second raises [ValueError]: for [k = 4] the slice
    [data[s, :, 0:-1]] has two samples and [y[s, :, 4:]] has none. *)
Definition coef_order4 : matrix Z := matrix_of [[1; 1; 1; 1]]%Z.
Definition data_short : tensor Z := tensor_of [[[1; 2; 3]]]%Z.

Lemma predict_branches_counterexample :
  (exists y, predict_lag_outer coef_order4 data_short 4 (zeros3 1 1 3) = Ok y)
  /\ predict_per_trial coef_order4 data_short 4 (zeros3 1 1 3)
     = Raise broadcast_error.
Proof.
  split.
  - eexists. reflexivity.
  - reflexivity.
Qed.

(** *** Simulation *)

Section Simulation.
Context {R : Type} {SR : Scalar R} {E : Externals R}.

Lemma fold_left_ext_in (A B : Type) (f g : A -> B -> A) (l : list B) (a : A) :
  (forall x b, In b l -> f x b = g x b) ->
  fold_left f l a = fold_left g l a.
Proof.
  revert a. induction l as [|b l IH]; intros a Hfg; simpl; [reflexivity|].
  rewrite Hfg by (now left). apply IH. intros; apply Hfg; now right.
Qed.

Lemma cols_from_step_block (coef : matrix R) (m p k : nat) :
  nrows coef = m -> ncols coef = m * p -> 1 <= k <= p ->
  exists bp, cols_from_step coef (k - 1) p = Ok bp
             /\ nrows bp = m /\ ncols bp = m
             /\ forall i x, mget bp i x = mget coef i (k - 1 + x * p).
Proof.
  intros Hrows Hcols Hk. unfold cols_from_step.
  destruct (Nat.eqb_spec p 0); [lia|].
  eexists. split; [reflexivity|]. cbn [nrows ncols mget].
  split; [exact Hrows|]. split; [|reflexivity].
  rewrite Hcols. apply stride_count. lia.
Qed.

Section Run.
Variable G : Type.
Variable noisefunc : G -> vector R * G.
Variables (coef : matrix R) (m p t l : nat) (g0 : G).
Hypothesis Hrows : nrows coef = m.
Hypothesis Hcols : ncols coef = m * p.
Hypothesis Hnoise : forall g, vlen (fst (noisefunc g)) = m.

(** The number of samples generated for each trial. *)
Let N := l + 10 * p.

(** The noise source after [j] draws, and the [j]-th draw. *)
Definition after_draws (j : nat) : G :=
  Nat.iter j (fun g => snd (noisefunc g)) g0.
Definition draw (j : nat) : vector R := fst (noisefunc (after_draws j)).

(** Channel [c] of the lag-[k] coefficient block applied to the sample
    [i - k] of trial [s] of [y]. *)
Definition feedback_term (y : tensor R) (s i k c : nat) : R :=
  rsum m (fun x => rmul (mget coef c (k - 1 + x * p)) (tget y (i - k) x s)).

(** What the recursion assigns to channel [c] of sample [i] of trial [s]:
    the noise draw, to which the feedback terms are added for
    [i >= p]. *)
Definition sample_value (y : tensor R) (s i c : nat) : R :=
  fold_left (fun acc k => radd acc (feedback_term y s i k c))
            (seq 1 (if p <=? i then p else 0))
            (vget (draw (s * N + i)) c).

Lemma sample_value_ext (y y' : tensor R) (s i c : nat) :
  (forall i0 x, i0 < i -> x < m -> tget y' i0 x s = tget y i0 x s) ->
  sample_value y' s i c = sample_value y s i c.
Proof.
  intros Hagree. unfold sample_value.
  apply fold_left_ext_in. intros acc k Hk. f_equal.
  unfold feedback_term. apply rsum_ext. intros x Hx. f_equal.
  apply in_seq in Hk.
  destruct (Nat.leb_spec p i); [|lia].
  apply Hagree; [lia | assumption].
Qed.

(** Arrays of the shape of [y] and [res]. *)
Definition sim_shape (x : tensor R) : Prop :=
  dim0 x = N /\ dim1 x = m /\ dim2 x = t.

(** [x'] is [x] with row [(i, s)] replaced by [f]. *)
Definition row_set (x x' : tensor R) (i s : nat) (f : nat -> R) : Prop :=
  sim_shape x'
  /\ (forall c, c < m -> tget x' i c s = f c)
  /\ (forall i0 c s0, i0 <> i \/ s0 <> s -> tget x' i0 c s0 = tget x i0 c s0).

Lemma set_row_ok (x : tensor R) (i s : nat) (e : vector R) :
  sim_shape x -> vlen e = m ->
  exists x', set_row x i s e = Ok x' /\ row_set x x' i s (vget e).
Proof.
  intros (D0 & D1 & D2) He. unfold set_row.
  rewrite He, D1, bc_ok_refl.
  eexists. split; [reflexivity|].
  split; [repeat split; assumption|].
  split.
  - intros c Hc. cbn [tget]. rewrite !Nat.eqb_refl. cbn [andb].
    now rewrite bc_idx_lt.
  - intros i0 c s0 Hne. cbn [tget].
    destruct (Nat.eqb_spec i0 i); destruct (Nat.eqb_spec s0 s);
      cbn [andb]; try reflexivity. lia.
Qed.

Lemma iadd_row_ok (x : tensor R) (i s : nat) (v : vector R) :
  sim_shape x -> vlen v = m ->
  exists x', iadd_row x i s v = Ok x'
             /\ row_set x x' i s (fun c => radd (tget x i c s) (vget v c)).
Proof.
  intros (D0 & D1 & D2) He. unfold iadd_row.
  rewrite He, D1, bc_ok_refl.
  eexists. split; [reflexivity|].
  split; [repeat split; assumption|].
  split.
  - intros c Hc. cbn [tget]. rewrite !Nat.eqb_refl. cbn [andb].
    now rewrite bc_idx_lt.
  - intros i0 c s0 Hne. cbn [tget].
    destruct (Nat.eqb_spec i0 i); destruct (Nat.eqb_spec s0 s);
      cbn [andb]; try reflexivity. lia.
Qed.

(** The state after the samples before [(s, i)] have been generated:
    [j] draws have been made, and the samples generated so far hold
    their values. *)
Definition generated (st : sim_state G) (s i : nat) : Prop :=
  sim_shape (sim_y st) /\ sim_shape (sim_res st)
  /\ sim_noise st = after_draws (s * N + i)
  /\ forall s0 i0 c, s0 < s \/ (s0 = s /\ i0 < i) -> i0 < N -> c < m ->
       tget (sim_y st) i0 c s0 = sample_value (sim_y st) s0 i0 c
       /\ tget (sim_res st) i0 c s0 = vget (draw (s0 * N + i0)) c.

Lemma after_draws_S (j : nat) :
  after_draws (S j) = snd (noisefunc (after_draws j)).
Proof. reflexivity. Qed.

(** The lag loop for sample [i >= p] of trial [s]. *)
Lemma feed_back_loop (y0 : tensor R) (i s : nat) (res : tensor R) (g : G) :
  sim_shape y0 -> p <= i ->
  exists y,
    for_each (range 1 (p + 1)) (feed_back coef p i s)
             (mkSim y0 res g) = Ok (mkSim y res g)
    /\ row_set y0 y i s
         (fun c => fold_left (fun acc k => radd acc (feedback_term y0 s i k c))
                             (seq 1 p) (tget y0 i c s)).
Proof.
  intros Hs Hpi. unfold range. replace (p + 1 - 1) with p by lia.
  destruct (@for_each_seq_inv (sim_state G) (feed_back coef p i s)
              (fun k' st =>
                 sim_res st = res /\ sim_noise st = g
                 /\ row_set y0 (sim_y st) i s
                      (fun c => fold_left
                                  (fun acc k => radd acc (feedback_term y0 s i k c))
                                  (seq 1 (k' - 1)) (tget y0 i c s)))
              p 1 (mkSim y0 res g)) as [st [Est Ist]].
  - split; [reflexivity|]. split; [reflexivity|].
    split; [exact Hs|]. split; intros; reflexivity.
  - intros k st Hk (Hres & Hg & Hsh & Hrow & Hframe).
    unfold feed_back.
    destruct (@cols_from_step_block coef m p k Hrows Hcols)
      as (bp & Ebp & Br & Bc & Bg); [lia|].
    rewrite Ebp. cbn [bind]. unfold dotv. cbn [get_row vlen].
    destruct Hsh as (D0 & D1 & D2).
    rewrite Bc, D1, Nat.eqb_refl. cbn [bind].
    match goal with
    | |- context [iadd_row _ _ _ ?v] =>
        destruct (@iadd_row_ok (sim_y st) i s v) as (y' & Ey' & Hsh' & Hrow' & Hframe')
    end; [repeat split; assumption | cbn [vlen]; exact Br |].
    rewrite Ey'. cbn [bind].
    eexists. split; [reflexivity|]. cbn [sim_res sim_noise sim_y].
    split; [exact Hres|]. split; [exact Hg|].
    split; [exact Hsh'|]. split.
    + intros c Hc. rewrite Hrow' by assumption. cbn [vget].
      rewrite Hrow by assumption.
      replace (S k - 1) with (S (k - 1)) by lia.
      rewrite seq_S, fold_left_app. cbn [fold_left].
      replace (1 + (k - 1)) with k by lia. f_equal.
      unfold feedback_term. apply rsum_ext. intros x Hx.
      rewrite Bg. f_equal. apply Hframe. left. lia.
    + intros i0 c s0 Hne. rewrite Hframe' by assumption. now apply Hframe.
  - destruct st as [y res' g']. cbn [sim_res sim_noise sim_y] in Ist.
    destruct Ist as (-> & -> & Hrow).
    exists y. split; [exact Est|].
    replace (1 + p - 1) with p in Hrow by lia. exact Hrow.
Qed.

Lemma generated_next (st st' : sim_state G) (s i : nat) :
  generated st s i ->
  row_set (sim_y st) (sim_y st') i s (fun c => sample_value (sim_y st') s i c) ->
  row_set (sim_res st) (sim_res st') i s (vget (draw (s * N + i))) ->
  sim_noise st' = snd (noisefunc (sim_noise st)) ->
  generated st' s (S i).
Proof.
  intros (Sy & Sr & Hg & Hdone) (Sy' & Hy' & Fy') (Sr' & Hr' & Fr') Hg'.
  split; [exact Sy'|]. split; [exact Sr'|].
  split.
  { rewrite Hg', Hg. replace (s * N + S i) with (S (s * N + i)) by lia.
    reflexivity. }
  intros s0 i0 c Hbefore Hi0 Hc.
  destruct (Nat.eq_dec s0 s) as [-> | Hs0];
    [destruct (Nat.eq_dec i0 i) as [-> | Hi]|].
  - split; [now apply Hy' | now apply Hr'].
  - destruct (Hdone s i0 c) as [Vy Vr]; [lia | assumption | assumption |].
    rewrite Fy', Fr' by (left; assumption).
    split; [|exact Vr].
    rewrite Vy. symmetry. apply sample_value_ext.
    intros i1 x Hi1 Hx. apply Fy'. left. lia.
  - destruct (Hdone s0 i0 c) as [Vy Vr]; [lia | assumption | assumption |].
    rewrite Fy', Fr' by (right; assumption).
    split; [|exact Vr].
    rewrite Vy. symmetry. apply sample_value_ext.
    intros i1 x Hi1 Hx. apply Fy'. right. assumption.
Qed.

(** A sample of the warm start: the noise draw alone. *)
Lemma warm_sample (st : sim_state G) (s i : nat) :
  i < p -> generated st s i ->
  exists st', draw_sample noisefunc i s st = Ok st' /\ generated st' s (S i).
Proof.
  intros Hi Hgen. pose proof Hgen as (Sy & Sr & Hg & Hdone).
  unfold draw_sample.
  destruct (noisefunc (sim_noise st)) as [e g] eqn:Ee.
  assert (He : vlen e = m) by (rewrite <- (Hnoise (sim_noise st)), Ee; reflexivity).
  destruct (@set_row_ok (sim_res st) i s e Sr He) as (res' & Eres & Hres).
  destruct (@set_row_ok (sim_y st) i s e Sy He) as (y' & Ey & Hy).
  rewrite Eres. cbn [bind]. rewrite Ey. cbn [bind].
  eexists. split; [reflexivity|].
  assert (Hdraw : e = draw (s * N + i))
    by (unfold draw; rewrite <- Hg, Ee; reflexivity).
  apply generated_next with (st := st); cbn [sim_y sim_res sim_noise].
  - exact Hgen.
  - destruct Hy as (Sy' & Hy' & Fy'). split; [exact Sy'|]. split; [|exact Fy'].
    intros c Hc. rewrite Hy' by assumption. unfold sample_value.
    destruct (Nat.leb_spec p i); [lia|]. cbn [seq fold_left].
    now rewrite Hdraw.
  - now rewrite <- Hdraw.
  - now rewrite Ee.
Qed.

(** A sample of the recursion: the noise draw and the feedback of the
    [p] samples before it. *)
Lemma recursive_sample (st : sim_state G) (s i : nat) :
  p <= i -> generated st s i ->
  exists st',
    (st1 <- draw_sample noisefunc i s st ;;
     for_each (range 1 (p + 1)) (feed_back coef p i s) st1) = Ok st'
    /\ generated st' s (S i).
Proof.
  intros Hi Hgen. pose proof Hgen as (Sy & Sr & Hg & Hdone).
  unfold draw_sample.
  destruct (noisefunc (sim_noise st)) as [e g] eqn:Ee.
  assert (He : vlen e = m) by (rewrite <- (Hnoise (sim_noise st)), Ee; reflexivity).
  destruct (@set_row_ok (sim_res st) i s e Sr He) as (res' & Eres & Hres).
  destruct (@set_row_ok (sim_y st) i s e Sy He) as (y1 & Ey & Sy1 & Hy1 & Fy1).
  rewrite Eres. cbn [bind]. rewrite Ey. cbn [bind].
  destruct (@feed_back_loop y1 i s res' g Sy1 Hi) as (y' & Eloop & Sy' & Hy' & Fy').
  rewrite Eloop.
  eexists. split; [reflexivity|].
  assert (Hdraw : e = draw (s * N + i))
    by (unfold draw; rewrite <- Hg, Ee; reflexivity).
  apply generated_next with (st := st); cbn [sim_y sim_res sim_noise].
  - exact Hgen.
  - split; [exact Sy'|]. split.
    + intros c Hc. rewrite Hy' by assumption. unfold sample_value.
      destruct (Nat.leb_spec p i); [|lia].
      rewrite Hy1, Hdraw by assumption.
      apply fold_left_ext_in. intros acc k Hk. f_equal.
      unfold feedback_term. apply rsum_ext. intros x Hx. f_equal.
      apply in_seq in Hk. symmetry. apply Fy'. left. lia.
    + intros i0 c s0 Hne. rewrite Fy' by assumption. now apply Fy1.
  - now rewrite <- Hdraw.
  - now rewrite Ee.
Qed.

(** One trial. *)
Lemma simulate_trial_ok (st : sim_state G) (s : nat) :
  generated st s 0 ->
  exists st', simulate_trial noisefunc coef p N s st = Ok st'
              /\ generated st' (S s) 0.
Proof.
  intros Hgen. unfold simulate_trial.
  destruct (@for_each_range_inv (sim_state G)
              (fun i st => draw_sample noisefunc i s st)
              (fun i st => generated st s i) 0 p st) as (st1 & E1 & G1);
    [lia | exact Hgen | intros; apply warm_sample; [lia | assumption] |].
  rewrite E1. cbn [bind].
  destruct (@for_each_range_inv (sim_state G)
              (fun i st =>
                 st <- draw_sample noisefunc i s st ;;
                 for_each (range 1 (p + 1)) (feed_back coef p i s) st)
              (fun i st => generated st s i) p N st1) as (st2 & E2 & G2);
    [unfold N; lia | exact G1
     | intros; apply recursive_sample; [lia | assumption] |].
  exists st2. split; [exact E2|].
  destruct G2 as (Sy & Sr & Hg & Hdone).
  split; [exact Sy|]. split; [exact Sr|].
  split; [rewrite Hg; f_equal; lia|].
  intros s0 i0 c Hb Hi0 Hc. apply Hdone; [lia | assumption | assumption].
Qed.

(** All trials, from arrays of zeros. *)
Lemma simulate_trials_ok :
  exists st,
    for_each (range 0 t) (simulate_trial noisefunc coef p N)
             (mkSim (zeros3 N m t) (zeros3 N m t) g0) = Ok st
    /\ generated st t 0.
Proof.
  apply (@for_each_range_inv (sim_state G)
           (simulate_trial noisefunc coef p N)
           (fun s st => generated st s 0) 0 t).
  - lia.
  - split; [repeat split|]. split; [repeat split|].
    split; [reflexivity|]. intros; lia.
  - intros s st Hs Hgen. now apply simulate_trial_ok.
Qed.

End Run.
End Simulation.

Section SimulateClaim.
Context {R : Type} {SR : Scalar R} {E : Externals R}.

(** The two forms of the argument [l] of [simulate]. *)
Definition requested_samples (l : length_arg) : nat :=
  match l with Samples l => l | SamplesTrials l _ => l end.
Definition requested_trials (l : length_arg) : nat :=
  match l with Samples _ => 1 | SamplesTrials _ t => t end.

(** The trials of a tensor that has some, side by side. *)
Lemma cat_trials_ok (x : tensor R) :
  1 <= dim0 x ->
  exists cat, cat_trials x = Ok cat
              /\ nrows cat = dim1 x /\ ncols cat = dim0 x * dim2 x.
Proof.
  intros Ht. unfold cat_trials.
  destruct (Nat.eqb_spec (dim0 x) 0); [lia|].
  eexists. repeat split.
Qed.

(** One call of [simulate] on a fitted model, for at least one trial, in
    full: the loops end in a state where every sample has been generated,
    the residuals are stored in a new array, their trials are
    concatenated, and the covariance is stored in a second new array. *)
Lemma simulate_run (G : Type) (noisefunc : G -> vector R * G)
    (h : heap R) (self : VARBase) (coefm : matrix R) (m p : nat)
    (larg : length_arg) (g0 : G) :
  fitted_for h self coefm m p ->
  1 <= m ->
  (forall g, vlen (fst (noisefunc g)) = m) ->
  1 <= requested_trials larg ->
  let l := requested_samples larg in
  let t := requested_trials larg in
  exists st cat,
    generated noisefunc coefm m p t l g0 st t 0
    /\ cat_trials (drop_transpose (sim_res st) (10 * p)) = Ok cat
    /\ simulate_with noisefunc h self larg g0 =
       Ok (fst (alloc (fst (alloc h (Arr3 (drop_transpose (sim_res st) (10 * p)))))
                      (np_cov (transpose cat))),
           set_residuals self (Whole (next h)) (Whole (S (next h))),
           drop_transpose (sim_y st) (10 * p),
           sim_noise st).
Proof.
  intros (r & Hc & Hl & Hr & Hcl) Hm Hnoise Ht l t.
  destruct (@simulate_trials_ok R SR G noisefunc coefm m p t l g0 Hr Hcl Hnoise)
    as (st & Est & Hgen).
  destruct (@cat_trials_ok (drop_transpose (sim_res st) (10 * p)))
    as (cat & Ecat & _).
  { destruct Hgen as (_ & (D0 & D1 & D2) & _).
    cbn [drop_transpose dim0]. rewrite D2. exact Ht. }
  exists st, cat. split; [exact Hgen|]. split; [exact Ecat|].
  unfold simulate_with, coef_for_shape. rewrite Hc, Hl.
  cbn [as_matrix bind]. unfold floordiv. rewrite Hr.
  destruct (Nat.eqb_spec m 0); [lia|]. cbn [bind].
  rewrite Hcl, Nat.mul_comm, Nat.div_mul by lia.
  subst l t. destruct larg as [l0 | l0 t0];
    cbn [requested_samples requested_trials] in Est, Ecat;
    rewrite Est; cbn [bind alloc]; rewrite Ecat; reflexivity.
Qed.

(** C9 (amended).  For a fitted model of [m] channels and order [p], a
    noise source that draws one value per channel, and a requested length
    (a sample count, or samples and trials) of at least one trial,
    [simulate] generates for each trial a series [y] of [l + 10 p] samples
    and returns its last [l] samples, as an array of shape (trials,
    channels, [l]).  Every generated sample - hence every returned one -
    is the next draw of the noise source, to which the recursion adds, for
    each lag [k = 1 .. p], the lag-[k] coefficient block applied to the
    [k]-th sample before it. *)
Theorem simulate_burn_in (G : Type) (noisefunc : G -> vector R * G)
    (h : heap R) (self : VARBase) (coefm : matrix R) (m p : nat)
    (larg : length_arg) (g0 : G) :
  fitted_for h self coefm m p ->
  1 <= m ->
  (forall g, vlen (fst (noisefunc g)) = m) ->
  1 <= requested_trials larg ->
  let l := requested_samples larg in
  let t := requested_trials larg in
  exists h' self' out g' y,
    simulate_with noisefunc h self larg g0 = Ok (h', self', out, g')
    /\ dim0 out = t /\ dim1 out = m /\ dim2 out = l
    /\ dim0 y = l + 10 * p
    /\ (forall s c i, s < t -> c < m -> i < l ->
          tget out s c i = tget y (10 * p + i) c s)
    /\ (forall s c i, s < t -> c < m -> i < l + 10 * p ->
          tget y i c s = sample_value noisefunc coefm m p l g0 y s i c).
Proof.
  intros Hfit Hm Hnoise Ht l t.
  destruct (@simulate_run G noisefunc h self coefm m p larg g0 Hfit Hm Hnoise Ht)
    as (st & cat & Hgen & _ & Erun).
  destruct Hgen as (Sy & Sr & Hg & Hdone).
  fold l t in Sy, Sr, Hg, Hdone.
  destruct Sy as (D0 & D1 & D2).
  do 4 eexists. exists (sim_y st).
  split; [exact Erun|].
  cbn [drop_transpose dim0 dim1 dim2 tget].
  rewrite D0, D1, D2, Nat.min_l by lia.
  split; [reflexivity|]. split; [reflexivity|]. split; [lia|].
  split; [reflexivity|]. split; [reflexivity|].
  intros s c i Hs Hci Hi.
  apply Hdone; [lia | assumption | assumption].
Qed.

End SimulateClaim.

(** *** Portmanteau statistics *)

Section QStatistic.
Context {R : Type} {SR : Scalar R} {E : Externals R}.

(** [tmp] of one lag: the trace of the product of the two solutions
    [a = lu_solve(c0f, cl)] and [b = lu_solve(c0f, cl.T)]. *)
Definition lag_trace (a b : matrix R) : R :=
  trace (mkMat (nrows a) (ncols b)
           (fun i j => rsum (ncols a) (fun k => rmul (mget a i k) (mget b k j)))).

(** The bias correction of the Li-McLeod statistic at lag [l]. *)
Definition li_mcleod_correction (m l : nat) (nt : Z) : R :=
  rdiv (of_int (Z.of_nat (m * m * l * (l + 1)))) (of_int (2 * nt)).

(** The covariance matrix of [x] is computed and factorised as [c0f]. *)
Definition covariance_factorised (x : tensor R) (c0f : lu) : Prop :=
  exists c0, acm x 0 = Ok c0 /\ lu_factor c0 = Ok c0f.

(** What the statistic of [x] up to lag [h] needs from its collaborators
    on this input: the covariance matrix is computed and factorised, and
    for each lag the autocovariance is computed and the two systems are
    solved, with solutions [a l] and [b l] that can be multiplied. *)
Definition lags_computed (x : tensor R) (h : nat) (c0f : lu)
    (a b : nat -> matrix R) : Prop :=
  covariance_factorised x c0f
  /\ forall l, 1 <= l <= h ->
       exists cl, acm x l = Ok cl
                  /\ lu_solve c0f cl = Ok (a l)
                  /\ lu_solve c0f (transpose cl) = Ok (b l)
                  /\ ncols (a l) = nrows (b l).

(** The same, for some factorisation and some solutions. *)
Definition statistic_computable (x : tensor R) (h : nat) : Prop :=
  exists c0f a b, lags_computed x h c0f a b.

Section Run.
Variables (x : tensor R) (h : nat) (nt : Z).
Variables (c0f : lu) (a b : nat -> matrix R).
Hypothesis Hlags : lags_computed x h c0f a b.

Lemma q_term_ok (l : nat) :
  1 <= l <= h -> q_term x c0f l = Ok (lag_trace (a l) (b l)).
Proof.
  intros Hl. destruct Hlags as [_ Hlag].
  destruct (Hlag l Hl) as (cl & Ecl & Ea & Eb & Hab).
  unfold q_term. rewrite Ecl. cbn [bind]. rewrite Ea. cbn [bind].
  rewrite Eb. cbn [bind]. unfold dot. rewrite Hab, Nat.eqb_refl.
  cbn [bind]. unfold lag_trace. now rewrite Hab.
Qed.

(** The entries written by the first loop. *)
Definition q_raw (r l : nat) : R :=
  match r with
  | 0 => lag_trace (a l) (b l)
  | 1 => rdiv (lag_trace (a l) (b l)) (of_int (nt - Z.of_nat l))
  | 2 => lag_trace (a l) (b l)
  | _ => rO
  end.

Definition q_filled (q : matrix R) (hi : nat) : Prop :=
  nrows q = 3 /\ ncols q = h + 1
  /\ forall r c, mget q r c =
                 if (r <? 3) && (1 <=? c) && (c <? hi) then q_raw r c else rO.

Lemma q_first_loop :
  exists q,
    for_each (range 1 (h + 1))
      (fun l q =>
         tmp <- q_term x c0f l ;;
         let q := set_entry q 0 l tmp in
         let q := set_entry q 1 l (rdiv tmp (of_int (nt - Z.of_nat l))) in
         Ok (set_entry q 2 l tmp))
      (zeros 3 (h + 1)) = Ok q
    /\ q_filled q (h + 1).
Proof.
  apply (@for_each_range_inv (matrix R) _ (fun hi q => q_filled q hi) 1 (h + 1)).
  - lia.
  - split; [reflexivity|]. split; [reflexivity|].
    intros r c. cbn [zeros mget].
    destruct (r <? 3); destruct (Nat.leb_spec 1 c);
      destruct (Nat.ltb_spec c 1); cbn [andb]; try reflexivity; lia.
  - intros l q Hl (Qr & Qc & Qg).
    rewrite q_term_ok by lia. cbn [bind]. cbv zeta.
    eexists. split; [reflexivity|].
    split; [exact Qr|]. split; [exact Qc|].
    intros r c. cbn [set_entry mget]. rewrite Qg.
    destruct (Nat.eqb_spec c l) as [-> | Hcl].
    + destruct (Nat.leb_spec 1 l); [|lia].
      destruct (Nat.ltb_spec l (S l)); [|lia].
      destruct (Nat.ltb_spec l l); [lia|].
      destruct r as [|[|[|r]]]; reflexivity.
    + rewrite !andb_false_r.
      destruct (Nat.leb_spec 1 c); destruct (Nat.ltb_spec c l);
        destruct (Nat.ltb_spec c (S l)); try lia;
        rewrite ?andb_false_r, ?andb_true_r; reflexivity.
Qed.

Lemma q_second_loop (m : nat) (qc : matrix R) :
  nt <> 0%Z ->
  exists q,
    for_each (range 1 (h + 1))
      (fun l q =>
         corr <- int_truediv (Z.of_nat (m * m * l * (l + 1))) (2 * nt) ;;
         Ok (set_entry q 2 l (radd (mget q 0 l) corr)))
      qc = Ok q
    /\ nrows q = nrows qc /\ ncols q = ncols qc
    /\ forall r c,
         mget q r c =
         if (r =? 2) && (1 <=? c) && (c <? h + 1)
         then radd (mget qc 0 c) (li_mcleod_correction m c nt)
         else mget qc r c.
Proof.
  intros Hnt.
  apply (@for_each_range_inv (matrix R) _
           (fun hi q =>
              nrows q = nrows qc /\ ncols q = ncols qc
              /\ forall r c,
                   mget q r c =
                   if (r =? 2) && (1 <=? c) && (c <? hi)
                   then radd (mget qc 0 c) (li_mcleod_correction m c nt)
                   else mget qc r c) 1 (h + 1)).
  - lia.
  - split; [reflexivity|]. split; [reflexivity|].
    intros r c. destruct (r =? 2); destruct (Nat.leb_spec 1 c);
      destruct (Nat.ltb_spec c 1); cbn [andb]; try reflexivity; lia.
  - intros l q Hl (Qr & Qc & Qg).
    unfold int_truediv.
    destruct (Z.eqb_spec (2 * nt) 0); [lia|]. cbn [bind].
    eexists. split; [reflexivity|].
    split; [exact Qr|]. split; [exact Qc|].
    intros r c. cbn [set_entry mget]. rewrite !Qg. cbn [Nat.eqb andb].
    destruct (Nat.eqb_spec r 2) as [-> | Hr]; cbn [andb].
    + destruct (Nat.eqb_spec c l) as [-> | Hcl].
      * destruct (Nat.leb_spec 1 l); [|lia].
        destruct (Nat.ltb_spec l (S l)); [|lia]. reflexivity.
      * destruct (Nat.leb_spec 1 c); destruct (Nat.ltb_spec c l);
          destruct (Nat.ltb_spec c (S l)); cbn [andb]; try lia; reflexivity.
    + reflexivity.
Qed.

(** The statistics before the ring laws are used: the cumulative sums of
    the scaled entries, the third row corrected lag by lag. *)
Lemma calc_q_run :
  nt <> 0%Z ->
  exists q1 q,
    _calc_q_statistic x h nt = Ok q
    /\ q_filled q1 (h + 1)
    /\ nrows q = 3 /\ ncols q = h + 1
    /\ let qc := cumsum (scale_row (scale q1 (of_int nt)) 1 (of_int (nt + 2))) in
       forall r c,
         mget q r c =
         if (r =? 2) && (1 <=? c) && (c <? h + 1)
         then radd (mget qc 0 c) (li_mcleod_correction (dim1 x) c nt)
         else mget qc r c.
Proof.
  intros Hnt.
  destruct q_first_loop as (q1 & E1 & F1).
  destruct (@q_second_loop (dim1 x)
              (cumsum (scale_row (scale q1 (of_int nt)) 1 (of_int (nt + 2)))) Hnt)
    as (q & E2 & Qr & Qc & Qg).
  exists q1, q. unfold _calc_q_statistic.
  destruct Hlags as [(c0 & Ec0 & Ef) _].
  rewrite Ec0. cbn [bind]. rewrite Ef. cbn [bind].
  cbv zeta in E1 |- *.
  rewrite E1. cbn [bind].
  split; [exact E2|]. split; [exact F1|].
  destruct F1 as (F1r & F1c & _).
  split; [now rewrite Qr|]. split; [now rewrite Qc|]. exact Qg.
Qed.

(** With a sample count of zero the first bias correction divides by
    zero. *)
Lemma calc_q_zero_count :
  nt = 0%Z -> 1 <= h -> _calc_q_statistic x h nt = Raise ZeroDivisionError.
Proof.
  intros Hnt Hh. unfold _calc_q_statistic.
  destruct Hlags as [(c0 & Ec0 & Ef) _].
  rewrite Ec0. cbn [bind]. rewrite Ef. cbn [bind].
  destruct q_first_loop as (q1 & E1 & _).
  cbv zeta in E1 |- *. rewrite E1. cbn [bind].
  unfold range. replace (h + 1 - 1) with (S (h - 1)) by lia.
  subst nt. reflexivity.
Qed.

End Run.

(** [_calc_q_statistic] returns whenever its collaborators do and the
    sample count is not zero. *)
Lemma calc_q_statistic_ok (x : tensor R) (h : nat) (nt : Z) :
  statistic_computable x h ->
  nt <> 0%Z ->
  exists q, _calc_q_statistic x h nt = Ok q /\ nrows q = 3 /\ ncols q = h + 1.
Proof.
  intros (c0f & a & b & Hlags) Hnt.
  destruct (calc_q_run Hlags Hnt) as (q1 & q & Eq & _ & Qr & Qc & _).
  exists q. auto.
Qed.

(** With a sample count of zero and a lag to correct, the statistic does
    not return, whatever its collaborators do. *)
Lemma calc_q_zero_count_fails (x : tensor R) (h : nat) :
  1 <= h -> exists e, _calc_q_statistic x h 0 = Raise e.
Proof.
  intros Hh. unfold _calc_q_statistic.
  destruct (acm x 0) as [c0|e]; [|now exists e]. cbn [bind].
  destruct (lu_factor c0) as [c0f|e]; [|now exists e]. cbn [bind].
  match goal with
  | |- context [bind (for_each ?l ?f ?q0) _] =>
      destruct (for_each l f q0) as [q1|e]; [|now exists e]
  end.
  cbn [bind]. cbv zeta.
  unfold range. replace (h + 1 - 1) with (S (h - 1)) by lia.
  exists ZeroDivisionError. reflexivity.
Qed.

End QStatistic.

Section QStatisticClaims.
Context {R : Type} {SR : Scalar R} {E : Externals R}.
Hypothesis Rth : ring_theory rO rI radd rmul rsub ropp (@eq R).
Add Ring Rring2 : Rth.

Lemma sum_lags_S (c : nat) (f : nat -> R) :
  sum_lags (S c) f = radd (sum_lags c f) (f (S c)).
Proof.
  unfold sum_lags. rewrite seq_S, fold_left_app. reflexivity.
Qed.

Lemma rsum_from_one (c : nat) (f : nat -> R) :
  f 0 = rO -> rsum (S c) f = sum_lags c f.
Proof.
  intros H0. induction c as [|c IH].
  - rewrite rsum_S, H0, rsum_0. unfold sum_lags. simpl. ring.
  - rewrite rsum_S, IH, sum_lags_S. reflexivity.
Qed.

Lemma sum_lags_scale (c : nat) (g : nat -> R) (a : R) :
  sum_lags c (fun k => rmul (g k) a) = rmul a (sum_lags c g).
Proof.
  induction c as [|c IH].
  - unfold sum_lags. simpl. ring.
  - rewrite !sum_lags_S, IH. ring.
Qed.

Lemma sum_lags_ext (c : nat) (f g : nat -> R) :
  (forall k, 1 <= k <= c -> f k = g k) -> sum_lags c f = sum_lags c g.
Proof.
  intros Hfg. induction c as [|c IH]; [reflexivity|].
  rewrite !sum_lags_S, IH, Hfg by (intros; try apply Hfg; lia). reflexivity.
Qed.

(** C5 (amended).  Let the collaborators return on [x] up to lag [h]:
    the covariance matrix is computed and factorised, and for each lag
    [l = 1 .. h] the autocovariance [cl] is computed and the two systems
    are solved, [tmp(l)] being the trace of the product of the solutions.
    Then for a sample count [nt] other than zero [_calc_q_statistic]
    returns a [3] by [h + 1] array whose rows are, at every lag
    [l = 1 .. h]: Box-Pierce, [nt] times the sum over the lags [1 .. l] of
    [tmp]; Ljung-Box, [nt (nt + 2)] times the sum over the lags [1 .. l]
    of [tmp / (nt - lag)]; Li-McLeod, the Box-Pierce value of lag [l] plus
    the one correction [m^2 l (l + 1) / (2 nt)] of that lag.  For the
    sample count zero and [h >= 1] the call raises [ZeroDivisionError]. *)
Theorem calc_q_statistic_series (x : tensor R) (h : nat) (nt : Z)
    (c0f : lu) (a b : nat -> matrix R) :
  lags_computed x h c0f a b ->
  let tmp := fun l => lag_trace (a l) (b l) in
  (nt <> 0%Z ->
   exists q,
     _calc_q_statistic x h nt = Ok q
     /\ nrows q = 3 /\ ncols q = h + 1
     /\ forall l, 1 <= l <= h ->
          mget q 0 l = rmul (of_int nt) (sum_lags l tmp)
          /\ mget q 1 l =
             rmul (rmul (of_int nt) (of_int (nt + 2)))
                  (sum_lags l (fun k => rdiv (tmp k) (of_int (nt - Z.of_nat k))))
          /\ mget q 2 l =
             radd (mget q 0 l) (li_mcleod_correction (dim1 x) l nt))
  /\ (nt = 0%Z -> 1 <= h ->
      _calc_q_statistic x h nt = Raise ZeroDivisionError).
Proof.
  intros Hlags tmp. split; [|apply (calc_q_zero_count Hlags)].
  intros Hnt.
  destruct (calc_q_run Hlags Hnt) as (q1 & q & Eq & F1 & Qr & Qc & Qg).
  exists q. split; [exact Eq|]. split; [exact Qr|]. split; [exact Qc|].
  destruct F1 as (_ & _ & F1).
  cbv zeta in Qg.
  assert (Hzero : forall r, mget q1 r 0 = rO).
  { intros r. rewrite F1. destruct (r <? 3); reflexivity. }
  assert (Hin : forall r k, r < 3 -> 1 <= k <= h -> mget q1 r k = q_raw nt a b r k).
  { intros r k Hr Hk. rewrite F1.
    destruct (Nat.ltb_spec r 3); [|lia].
    destruct (Nat.leb_spec 1 k); [|lia].
    destruct (Nat.ltb_spec k (h + 1)); [|lia]. reflexivity. }
  intros l Hl.
  assert (B : mget q 0 l = rmul (of_int nt) (sum_lags l tmp)).
  { rewrite Qg. cbn [Nat.eqb andb cumsum scale_row scale mget].
    replace (l + 1) with (S l) by lia.
    rewrite rsum_from_one by (rewrite Hzero; ring).
    rewrite <- sum_lags_scale. apply sum_lags_ext.
    intros k Hk. now rewrite Hin by lia. }
  split; [exact B|]. split.
  - rewrite Qg. cbn [Nat.eqb andb cumsum scale_row scale mget].
    replace (l + 1) with (S l) by lia.
    rewrite rsum_from_one by (rewrite Hzero; ring).
    rewrite <- sum_lags_scale. apply sum_lags_ext.
    intros k Hk. rewrite Hin by lia. cbn [q_raw]. subst tmp. cbv beta. ring.
  - rewrite (Qg 2 l), (Qg 0 l). cbn [Nat.eqb andb].
    destruct (Nat.leb_spec 1 l); [|lia].
    destruct (Nat.ltb_spec l (h + 1)); [|lia]. reflexivity.
Qed.

End QStatisticClaims.

(** *** The whiteness test *)

Section WhitenessClaim.
Context {R : Type} {SR : Scalar R} {E : Externals R}.

(** The random number generator after [i] permutations of [x], and the
    surrogate data of draw [i]. *)
Definition after_permutations (x : tensor R) (g : rng) (i : nat) : rng :=
  Nat.iter i (fun g => snd (rng_permutation g x)) g.
Definition surrogate (x : tensor R) (g : rng) (i : nat) : tensor R :=
  fst (rng_permutation (after_permutations x g i) x).

(** [_calc_q_h0] returns the statistics of the surrogates, draw after
    draw, when each of them can be computed. *)
Lemma calc_q_h0_run (x : tensor R) (h : nat) (nt : Z) (d : matrix R) :
  nt <> 0%Z ->
  forall n g,
    (forall i, i < n -> statistic_computable (surrogate x g i) h) ->
    exists qs,
      _calc_q_h0 n x h nt g = Ok qs
      /\ List.length qs = n
      /\ (forall i, i < n ->
            _calc_q_statistic (surrogate x g i) h nt = Ok (nth i qs d))
      /\ forall q, In q qs -> ncols q = h + 1.
Proof.
  intros Hnt. induction n as [|n IH]; intros g Hsur.
  - exists []. repeat split; [intros i Hi; lia | intros q []].
  - cbn [_calc_q_h0].
    assert (H0 : statistic_computable (surrogate x g 0) h) by (apply Hsur; lia).
    unfold surrogate, after_permutations in H0. cbn [Nat.iter nat_rect] in H0.
    destruct (rng_permutation g x) as [x' g'] eqn:Eperm. cbn [fst] in H0.
    destruct (calc_q_statistic_ok H0 Hnt) as (q & Eq & _ & Qc).
    rewrite Eq. cbn [bind].
    destruct (IH g') as (qs & Eqs & Hlen & Hnth & Hcols).
    { intros i Hi. specialize (Hsur (S i) ltac:(lia)).
      unfold surrogate, after_permutations in Hsur |- *.
      rewrite Nat.iter_succ_r, Eperm in Hsur. exact Hsur. }
    rewrite Eqs. cbn [bind].
    exists (q :: qs). split; [reflexivity|].
    split; [simpl; now rewrite Hlen|].
    split.
    + intros [|i] Hi.
      * unfold surrogate, after_permutations. cbn [Nat.iter nat_rect nth].
        now rewrite Eperm.
      * cbn [nth]. rewrite <- Hnth by lia.
        unfold surrogate, after_permutations.
        rewrite Nat.iter_succ_r, Eperm. reflexivity.
    + intros q' [<- | Hin]; [exact Qc | now apply Hcols].
Qed.

Lemma ratio_in_unit (c r : nat) :
  1 <= r -> c <= r ->
  (0 <= inject_Z (Z.of_nat c) / inject_Z (Z.of_nat r) <= 1)%Q.
Proof.
  intros Hr Hc.
  assert (Hpos : (0 < inject_Z (Z.of_nat r))%Q)
    by (change 0%Q with (inject_Z 0); rewrite <- Zlt_Qlt; lia).
  split.
  - apply Qle_shift_div_l; [exact Hpos|].
    rewrite Qmult_0_l. change 0%Q with (inject_Z 0).
    rewrite <- Zle_Qle. lia.
  - apply Qle_shift_div_r; [exact Hpos|].
    rewrite Qmult_1_l. rewrite <- Zle_Qle. lia.
Qed.

(** The test on residuals whose sample count is zero does not return. *)
Lemma whiteness_zero_count_fails (data : tensor R) (h p repeats : nat)
    (get_q : bool) (random_state : rng) :
  1 <= h -> 1 <= repeats ->
  ((Z.of_nat (dim2 (drop_samples data p)) - Z.of_nat p)
   * Z.of_nat (dim0 (drop_samples data p)))%Z = 0%Z ->
  exists e, test_whiteness data h p repeats get_q random_state = Raise e.
Proof.
  intros Hh Hrep Hnt. unfold test_whiteness. rewrite Hnt.
  destruct repeats as [|n]; [lia|].
  cbn [_calc_q_h0].
  destruct (rng_permutation random_state (drop_samples data p)) as [x' g'].
  destruct (calc_q_zero_count_fails x' Hh) as (e & Ee).
  rewrite Ee. now exists e.
Qed.

(** C4 (amended).  Let the statistic be computable for the trimmed
    residuals and for each of the [repeats] surrogates - the collaborators
    return on them, and the sample count [nt] is not zero.  Then for every
    positive number of repeats [test_whiteness] returns, and the p-value
    it returns is the number of surrogate Li-McLeod statistics that are at
    least the observed one, divided by [repeats]: a multiple of
    [1 / repeats] between 0 and 1. *)
Theorem test_whiteness_p_value (data : tensor R) (h p repeats : nat)
    (get_q : bool) (random_state : rng) :
  1 <= repeats ->
  let res := drop_samples data p in
  let nt := ((Z.of_nat (dim2 res) - Z.of_nat p) * Z.of_nat (dim0 res))%Z in
  nt <> 0%Z ->
  statistic_computable res h ->
  (forall i, i < repeats -> statistic_computable (surrogate res random_state i) h) ->
  exists qs qm,
    List.length qs = repeats
    /\ (forall i, i < repeats ->
          _calc_q_statistic (surrogate res random_state i) h nt
          = Ok (nth i qs (zeros 0 0)))
    /\ _calc_q_statistic res h nt = Ok qm
    /\ let q0 := map (fun q => mget q 2 h) qs in
       let q := mget qm 2 h in
       let count := List.length (filter (fun s => rge s q) q0) in
       let pr := (inject_Z (Z.of_nat count) / inject_Z (Z.of_nat repeats))%Q in
       test_whiteness data h p repeats get_q random_state
       = Ok (if get_q then PValueQ pr q0 q else PValue pr)
       /\ count <= repeats
       /\ (0 <= pr <= 1)%Q
       /\ (pr == inject_Z (Z.of_nat count) * (1 / inject_Z (Z.of_nat repeats)))%Q.
Proof.
  intros Hrep res nt Hnt Hobs Hsur.
  destruct (@calc_q_h0_run res h nt (zeros 0 0) Hnt repeats random_state Hsur)
    as (qs & Eqs & Hlen & Hnth & Hcols).
  destruct (calc_q_statistic_ok Hobs Hnt) as (qm & Eqm & _ & Qc).
  exists qs, qm. split; [exact Hlen|]. split; [exact Hnth|].
  split; [exact Eqm|]. cbv zeta.
  assert (Hmap : map (fun q => mget q 2 (ncols q - 1)) qs
                 = map (fun q => mget q 2 h) qs).
  { apply map_ext_in. intros q Hq. rewrite (Hcols q Hq). f_equal. lia. }
  assert (Hlen0 : List.length (map (fun q => mget q 2 h) qs) = repeats)
    by (now rewrite length_map).
  assert (Hcount : List.length
                     (filter (fun s => rge s (mget qm 2 h))
                             (map (fun q => mget q 2 h) qs)) <= repeats)
    by (etransitivity; [apply filter_length_le | now rewrite Hlen0]).
  split.
  - unfold test_whiteness. fold res. fold nt. rewrite Eqs. cbn [bind].
    unfold last_li_mcleod. rewrite Hmap.
    destruct qs as [|q1 qs']; [simpl in Hlen; lia|].
    cbn [bind]. rewrite Eqm. cbn [bind].
    replace (ncols qm - 1) with h by lia.
    unfold count_ge.
    destruct get_q; reflexivity.
  - split; [exact Hcount|].
    split; [now apply ratio_in_unit|].
    unfold Qdiv. ring.
Qed.

End WhitenessClaim.

(** *** Instances of the simulation and whiteness theorems *)

(** On the integer collaborators the statistic can be computed up to any
    lag that the samples reach. *)
Lemma statistic_computable_Z (x : tensor Z) (h : nat) :
  h < dim2 x -> @statistic_computable Z Externals_Z x h.
Proof.
  intros Hh.
  exists (mkMat (dim1 x) (dim1 x)
            (fun i j => rsum (dim0 x)
                          (fun s => rsum (dim2 x - 0)
                                      (fun n => (tget x s j (n + 0) * tget x s i n)%Z)))),
         (fun l => match acm_sums x l with Ok cl => cl | Raise _ => zeros 0 0 end),
         (fun l => match acm_sums x l with
                   | Ok cl => transpose cl
                   | Raise _ => zeros 0 0
                   end).
  split.
  - eexists. split; [|reflexivity].
    cbn [acm Externals_Z]. unfold acm_sums.
    destruct (Nat.leb_spec (dim2 x) 0); [lia | reflexivity].
  - intros l Hl. cbn [acm lu_solve Externals_Z]. unfold acm_sums.
    destruct (Nat.leb_spec (dim2 x) l); [lia|].
    eexists. repeat split.
Qed.

Lemma surrogate_samples_Z (x : tensor Z) (g i : nat) :
  dim2 (@surrogate Z Externals_Z x g i) = dim2 x.
Proof. reflexivity. Qed.

(** A noise source for two channels. *)
Definition noise_Z (g : nat) : vector Z * nat :=
  (mkVec 2 (fun c => Z.of_nat (g + c)), S g).

Lemma simulate_burn_in_witness :
  exists h' self' out g',
    simulate_with noise_Z heap_fit var_fit (SamplesTrials 2 1) 0
    = Ok (h', self', out, g')
    /\ dim0 out = 1 /\ dim1 out = 2 /\ dim2 out = 2.
Proof.
  destruct (@simulate_burn_in Z Scalar_Z Externals_Z nat noise_Z
              heap_fit var_fit coef_identity 2 1 (SamplesTrials 2 1) 0
              fitted_heap_fit (le_S 1 1 (le_n 1)) (fun g => eq_refl) (le_n 1))
    as (h' & self' & out & g' & y & Erun & D0 & D1 & D2 & _).
  exists h', self', out, g'. repeat split; assumption.
Defined.

(** C9, as stated, fails for a length that asks for no trial: the loops
    generate nothing, and the covariance of the residuals cannot be
    computed, because their trials cannot be concatenated; the call raises
    [ZeroDivisionError] instead of returning an array of shape (0,
    channels, samples). *)
Lemma simulate_no_trials_counterexample :
  simulate_with noise_Z heap_fit var_fit (SamplesTrials 2 0) 0
  = Raise ZeroDivisionError.
Proof. reflexivity. Qed.

Lemma calc_q_statistic_series_witness :
  (exists q,
     _calc_q_statistic data_rank3 2 1 = Ok q
     /\ ncols q = 3
     /\ mget q 2 2 = radd (mget q 0 2) (li_mcleod_correction 2 2 1))
  /\ _calc_q_statistic data_rank3 2 0 = Raise ZeroDivisionError.
Proof.
  destruct (@statistic_computable_Z data_rank3 2) as (c0f & a & b & Hlags);
    [simpl; lia|].
  destruct (@calc_q_statistic_series Z Scalar_Z Externals_Z ring_Z
              data_rank3 2 1 c0f a b Hlags) as [Hseries _].
  destruct (@calc_q_statistic_series Z Scalar_Z Externals_Z ring_Z
              data_rank3 2 0 c0f a b Hlags) as [_ Hzero].
  split.
  - destruct Hseries as (q & Eq & _ & Qc & Hq); [discriminate|].
    exists q. split; [exact Eq|]. split; [exact Qc|].
    destruct (Hq 2) as (_ & _ & Hlm); [lia|]. exact Hlm.
  - apply Hzero; [reflexivity | lia].
Defined.

(** C5, as stated, fails on three counts.  For the sample count zero the
    correction term [m * m * l * (l + 1) / (2 * nt)] divides two Python
    integers, and the call raises [ZeroDivisionError] instead of producing
    the series.  For a lag bound that the three samples of the data do
    not reach, the autocovariance is refused and the call raises.  And the
    corrections are not cumulated: for two channels, [nt = 1] and
    [h = 2] the Li-McLeod value of lag 2 exceeds the Box-Pierce value of
    lag 2 by 12, the correction of lag 2, and not by 16, the corrections
    of the lags 1 and 2 together. *)
Lemma calc_q_statistic_counterexample :
  _calc_q_statistic data_rank3 1 0 = Raise ZeroDivisionError
  /\ _calc_q_statistic data_rank3 3 1
     = Raise (AttributeError "lag exceeds data length")
  /\ exists q,
       _calc_q_statistic data_rank3 2 1 = Ok q
       /\ (mget q 2 2 - mget q 0 2)%Z = 12%Z
       /\ (@li_mcleod_correction Z Scalar_Z 2 2 1 = 12)%Z
       /\ (@li_mcleod_correction Z Scalar_Z 2 1 1
           + @li_mcleod_correction Z Scalar_Z 2 2 1)%Z = 16%Z.
Proof.
  split; [reflexivity|]. split; [reflexivity|].
  eexists. split; [reflexivity|]. repeat split.
Qed.

(** One trial of two channels and five samples. *)
Definition data_five : tensor Z :=
  tensor_of [[[1; 2; 0; 3; 1]; [0; 1; 2; 1; 4]]]%Z.

(** With four repeats three of the surrogate statistics, 1987, 1927 and
    1576, are at least the observed 1576, and one, 1297, is not. *)
Lemma test_whiteness_p_value_witness :
  exists w,
    test_whiteness data_five 2 1 4 true (0 : @rng Z Externals_Z) = Ok w
    /\ (0 <= p_value w <= 1)%Q
    /\ w = PValueQ (3 # 4) [1987; 1927; 1297; 1576]%Z 1576%Z.
Proof.
  destruct (@test_whiteness_p_value Z Scalar_Z Externals_Z
              data_five 2 1 4 true (0 : @rng Z Externals_Z))
    as (qs & qm & _ & _ & _ & Erun & _ & Hpr & _).
  - lia.
  - discriminate.
  - apply statistic_computable_Z. simpl. lia.
  - intros i _. apply statistic_computable_Z.
    rewrite surrogate_samples_Z. simpl. lia.
  - eexists. split; [exact Erun|]. split; [exact Hpr|].
    assert (Hval : test_whiteness data_five 2 1 4 true (0 : @rng Z Externals_Z)
                   = Ok (PValueQ (3 # 4) [1987; 1927; 1297; 1576]%Z 1576%Z))
      by reflexivity.
    congruence.
Defined.

(** One trial of two channels and four samples: twice the order two. *)
Definition data_four : tensor Z := tensor_of [[[1; 2; 3; 4]; [4; 3; 2; 1]]]%Z.

(** C4, as stated, fails: the call can raise for a small positive number
    of repeats.  With [repeats = 1], order two and trials of four samples,
    two samples remain after the trim, the sample count
    [nt = (2 - 2) * 1] is zero, and the first surrogate statistic raises
    [ZeroDivisionError].  And with [repeats = 1] and a maximum lag of
    three on trials of three samples, the autocovariance of lag three is
    refused. *)
Lemma test_whiteness_small_repeats_counterexample :
  test_whiteness data_four 1 2 1 false (0 : @rng Z Externals_Z)
  = Raise ZeroDivisionError
  /\ test_whiteness data_rank3 3 0 1 false (0 : @rng Z Externals_Z)
     = Raise (AttributeError "lag exceeds data length").
Proof. split; reflexivity. Qed.

(* ------------------------------------------------------------------ *)
(** ** Further properties of the code *)

(** *** [is_stable]: the companion matrix *)

Section ColumnBlocks.
Context {R : Type} {SR : Scalar R}.

(** Placing blocks of [n] rows and [p0] columns to the right of [acc],
    which already holds the blocks [pre]. *)
Lemma append_cols_blocks (p0 n : nat) (d : matrix R) :
  forall (l : list (matrix R)) (acc : matrix R) (pre : list (matrix R)),
    ncols acc = List.length pre * p0 ->
    nrows acc = n ->
    (forall q r x, q < List.length pre -> x < p0 ->
                   mget acc r (q * p0 + x) = mget (nth q pre d) r x) ->
    (forall b, In b l -> nrows b = n /\ ncols b = p0) ->
    exists cat,
      for_each l (fun b acc => append_cols acc b) acc = Ok cat
      /\ ncols cat = (List.length pre + List.length l) * p0
      /\ nrows cat = n
      /\ (forall q r x, q < List.length pre + List.length l -> x < p0 ->
                        mget cat r (q * p0 + x) = mget (nth q (pre ++ l) d) r x).
Proof.
  induction l as [|b l IH]; intros acc pre Hc Hr Hget Hl.
  - exists acc. simpl. rewrite Nat.add_0_r, app_nil_r. auto.
  - destruct (Hl b (or_introl eq_refl)) as [Hbr Hbc].
    cbn [for_each]. unfold append_cols at 1.
    rewrite Hr, Hbr, Nat.eqb_refl. cbn [bind].
    match goal with
    | |- context [for_each l _ ?a] => set (acc' := a)
    end.
    destruct (IH acc' (pre ++ [b])%list) as [cat [E [Cc [Cr Cg]]]].
    + subst acc'. cbn [ncols]. rewrite Hc, Hbc, length_app. simpl. lia.
    + reflexivity.
    + intros q r x Hq Hx. rewrite length_app in Hq. simpl in Hq.
      subst acc'. cbn [mget].
      destruct (Nat.ltb_spec (q * p0 + x) (ncols acc)) as [Hlt | Hge].
      * assert (q < List.length pre) by (rewrite Hc in Hlt; nia).
        rewrite app_nth1 by assumption. now apply Hget.
      * assert (q = List.length pre) by (rewrite Hc in Hge; nia). subst q.
        rewrite app_nth2, Nat.sub_diag by lia. simpl.
        f_equal. rewrite Hc. lia.
    + intros b' Hb'. apply Hl. now right.
    + exists cat. rewrite length_app in Cc, Cg. simpl in Cc, Cg.
      rewrite <- app_assoc in Cg. simpl in Cg.
      split; [assumption|]. split; [simpl; rewrite Cc; f_equal; lia|].
      split; [assumption|].
      intros q r x Hq Hx. apply Cg; simpl in Hq; lia.
Qed.

Lemma hstack_blocks (p0 n : nat) (d : matrix R) (l : list (matrix R)) :
  l <> [] ->
  (forall b, In b l -> nrows b = n /\ ncols b = p0) ->
  exists cat,
    hstack l = Ok cat
    /\ ncols cat = List.length l * p0
    /\ nrows cat = n
    /\ (forall q r x, q < List.length l -> x < p0 ->
                      mget cat r (q * p0 + x) = mget (nth q l d) r x).
Proof.
  destruct l as [|a l]; [congruence|]. intros _ Hl.
  destruct (Hl a (or_introl eq_refl)) as [Har Hac].
  destruct (@append_cols_blocks p0 n d l a [a]) as [cat [E [Cc [Cr Cg]]]].
  - simpl. lia.
  - assumption.
  - intros q r x Hq Hx. simpl in Hq. assert (q = 0) by lia. subst q. reflexivity.
  - intros b Hb. apply Hl. now right.
  - exists cat. simpl. auto.
Qed.

(** The identity block grown by [j] rounds of
    [eye_block = block_diag(im, eye_block)]. *)
Lemma eye_block_grows (m j : nat) :
  let e := fold_left (fun eye_block (_ : nat) => block_diag (eye m) eye_block)
                     (seq 0 j) (@eye R SR m) in
  nrows e = m * (j + 1) /\ ncols e = m * (j + 1)
  /\ forall r c, mget e r c = if r =? c then rI else rO.
Proof.
  induction j as [|j IH]; cbv zeta.
  - simpl. repeat split; lia.
  - rewrite seq_S, fold_left_app. cbn [fold_left].
    cbv zeta in IH. destruct IH as (Hr & Hc & Hg).
    set (e := fold_left _ _ _) in *.
    cbn [block_diag eye nrows ncols mget].
    split; [rewrite Hr; lia|]. split; [rewrite Hc; lia|].
    intros r c. rewrite Hg.
    destruct (Nat.ltb_spec r m); destruct (Nat.ltb_spec c m);
      destruct (Nat.eqb_spec r c); try reflexivity; try lia.
    + destruct (Nat.eqb_spec (r - m) (c - m)); [reflexivity | lia].
    + destruct (Nat.eqb_spec (r - m) (c - m)); [lia | reflexivity].
Qed.

End ColumnBlocks.

Section Stability.
Context {R : Type} {SR : Scalar R} {E : Externals R}.

(** The model holds a coefficient array [c] of rank 2. *)
Definition holds_coef (h : heap R) (self : VARBase) (c : matrix R) : Prop :=
  exists r, coef self = Some r /\ load h r = Arr2 c.

(** For order one the identity block and the block of zeros beside it
    do not have the same number of rows. *)
Lemma order_one_blocks_mismatch (h : heap R) (self : VARBase) (c : matrix R) :
  coef_matrix h self = Ok c ->
  1 <= nrows c -> ncols c = nrows c ->
  is_stable h self = Raise shape_error.
Proof.
  intros Hc Hm Hsq.
  unfold is_stable. rewrite Hc. cbn [bind].
  unfold floordiv. rewrite Hsq.
  destruct (Nat.eqb_spec (nrows c) 0); [lia|]. cbn [bind].
  rewrite Nat.div_same by assumption.
  rewrite Nat.mul_1_r, Nat.eqb_refl. cbn [py_assert bind].
  cbn [range Nat.sub seq map_result cols_from_step Nat.eqb bind hstack for_each
       fold_left].
  unfold append_cols. cbn [eye zeros nrows].
  rewrite Nat.mul_0_r.
  destruct (Nat.eqb_spec (nrows c) 0); [lia | reflexivity].
Qed.

(** X1.  [is_stable] cannot answer for any model of order one: whenever
    the coefficients are an [m] by [m] array with [m >= 1], the call
    raises the [ValueError] of [np.hstack], because the identity block has
    [m] rows and the block of zeros beside it has [m * (p - 1) = 0]. *)
Theorem is_stable_order_one_raises (h : heap R) (self : VARBase) (c : matrix R) :
  holds_coef h self c ->
  1 <= nrows c -> ncols c = nrows c ->
  is_stable h self = Raise shape_error.
Proof.
  intros (r & Hc & Hl) Hm Hsq.
  apply order_one_blocks_mismatch with (c := c); try assumption.
  unfold coef_matrix. now rewrite Hc, Hl.
Qed.

(** X2.  For a model of [m >= 1] channels and order [p >= 2], [is_stable]
    returns what the eigenvalue test says of a square matrix of [m * p]
    rows: its first [m] rows are the lag blocks [coef[:, k::p]] side by
    side, and below them row [m + d] is the unit vector of column [d]
    (the identity shifted down by one block). *)
Theorem is_stable_companion (h : heap R) (self : VARBase) (c : matrix R)
    (m p : nat) :
  holds_coef h self c ->
  nrows c = m -> ncols c = m * p ->
  1 <= m -> 2 <= p ->
  exists a,
    is_stable h self = Ok (eig_all_abs_lt_1 a)
    /\ nrows a = m * p /\ ncols a = m * p
    /\ (forall i k j, i < m -> k < p -> j < m ->
          mget a i (k * m + j) = mget c i (k + j * p))
    /\ (forall r x, m <= r < m * p -> x < m * p ->
          mget a r x = if r - m =? x then rI else rO).
Proof.
  intros (r & Hc & Hl) Hr Hcl Hm Hp.
  unfold is_stable, coef_matrix. rewrite Hc, Hl. cbn [as_matrix bind].
  unfold floordiv. rewrite Hr, Hcl.
  destruct (Nat.eqb_spec m 0); [lia|]. cbn [bind].
  rewrite (Nat.mul_comm m p), Nat.div_mul by assumption.
  rewrite (Nat.mul_comm m p), Nat.eqb_refl. cbn [py_assert bind].
  assert (Hp0 : (p =? 0) = false) by (apply Nat.eqb_neq; lia).
  rewrite map_result_ok with
    (g := fun i => mkMat (nrows c) ((ncols c - i + (p - 1)) / p)
                     (fun r0 c0 => mget c r0 (i + c0 * p))).
  2:{ intros i _. unfold cols_from_step. now rewrite Hp0. }
  cbn [bind].
  match goal with
  | |- context [hstack (map ?g ?l)] =>
      destruct (@hstack_blocks R m m (zeros 0 0) (map g l))
        as (top & Etop & Tc & Tr & Tg)
  end.
  - unfold range. destruct p; [lia | discriminate].
  - intros b Hb. apply in_map_iff in Hb. destruct Hb as (i & <- & Hi).
    cbn [nrows ncols]. split; [exact Hr|].
    unfold range in Hi. apply in_seq in Hi.
    rewrite Hcl. apply stride_count. lia.
  - rewrite Etop. cbn [bind].
    rewrite length_map in Tc, Tg. unfold range in Tc, Tg.
    rewrite length_seq, Nat.sub_0_r in Tc, Tg.
    destruct (@eye_block_grows R SR m (p - 2)) as (Er & Ec & Eg).
    unfold range at 1. rewrite Nat.sub_0_r.
    set (e := fold_left _ (seq 0 (p - 2)) (eye m)) in *.
    cbn [hstack for_each]. unfold append_cols.
    cbn [zeros nrows ncols].
    replace (m * (p - 1)) with (nrows e) by (rewrite Er; f_equal; lia).
    rewrite Nat.eqb_refl. cbn [bind vstack for_each].
    unfold append_rows. cbn [nrows ncols].
    replace (ncols e + m) with (ncols top) by (rewrite Tc, Ec; nia).
    rewrite Nat.eqb_refl. cbn [bind].
    unfold all_eig_inside. cbn [nrows ncols].
    replace (nrows top + nrows e) with (ncols top) by (rewrite Tc, Tr, Er; nia).
    rewrite Nat.eqb_refl.
    eexists. split; [reflexivity|]. cbn [nrows ncols mget].
    split; [exact Tc|]. split; [exact Tc|].
    split.
    + intros i k j Hi Hk Hj.
      rewrite Tr. destruct (Nat.ltb_spec i m); [|lia].
      rewrite Tg by assumption.
      rewrite nth_map_seq by assumption.
      reflexivity.
    + intros r0 x Hr0 Hx.
      rewrite Tr. destruct (Nat.ltb_spec r0 m); [lia|].
      rewrite Ec.
      destruct (Nat.ltb_spec x (m * (p - 2 + 1))) as [Hlt | Hge].
      * apply Eg.
      * cbn [zeros mget].
        destruct (Nat.eqb_spec (r0 - m) x); [|reflexivity].
        exfalso. nia.
Qed.

(** X3.  The shapes [is_stable] cannot work with: a coefficient array
    without rows makes the order computation divide by zero; one whose
    column count is not a multiple of its row count fails the assertion;
    one with rows but no columns (order zero) leaves [np.hstack] without
    blocks. *)
Theorem is_stable_degenerate_shapes (h : heap R) (self : VARBase) (c : matrix R) :
  holds_coef h self c ->
  (nrows c = 0 -> is_stable h self = Raise ZeroDivisionError)
  /\ (nrows c <> 0 -> ncols c mod nrows c <> 0 ->
      is_stable h self = Raise AssertionError)
  /\ (nrows c <> 0 -> ncols c = 0 -> is_stable h self = Raise empty_error).
Proof.
  intros (r & Hc & Hl).
  unfold is_stable, coef_matrix. rewrite Hc, Hl. cbn [as_matrix bind].
  unfold floordiv. repeat split.
  - intros ->. reflexivity.
  - intros Hm Hmod.
    destruct (Nat.eqb_spec (nrows c) 0); [contradiction|]. cbn [bind].
    destruct (Nat.eqb_spec (ncols c) (nrows c * (ncols c / nrows c)))
      as [Heq | Hne]; [|reflexivity].
    exfalso. apply Hmod.
    rewrite Heq at 1. rewrite Nat.mul_comm. now apply Nat.Div0.mod_mul.
  - intros Hm ->.
    destruct (Nat.eqb_spec (nrows c) 0); [contradiction|]. cbn [bind].
    rewrite Nat.Div0.div_0_l, Nat.mul_0_r. reflexivity.
Qed.

End Stability.

(** *** [_construct_var_eqns]: the regression system *)

Section Equations.
Context {R : Type} {SR : Scalar R}.

Lemma zeros_rows_nat (k c : nat) :
  zeros_rows (Z.of_nat k) c = Ok (@zeros R SR k c).
Proof.
  unfold zeros_rows. destruct (Z.ltb_spec (Z.of_nat k) 0); [lia|].
  now rewrite Nat2Z.id.
Qed.

Lemma div_mod_flat (i p k : nat) :
  k < p -> (i * p + k) / p = i /\ (i * p + k) mod p = k.
Proof.
  intros Hk. split.
  - rewrite Nat.add_comm, Nat.div_add by lia. rewrite Nat.div_small by lia. lia.
  - rewrite Nat.add_comm, Nat.Div0.mod_add. now apply Nat.mod_small.
Qed.

Section Run.
Variables (data : tensor R) (p : nat).
Let t := dim0 data.
Let l := dim1 data.
Let m := dim2 data.
Hypothesis Hpl : p <= l.

(** The number of samples that have [p] predecessors, and the number of
    linear relations. *)
Let w := l - p.
Let n := w * t.

Lemma relations_count :
  ((Z.of_nat (dim1 data) - Z.of_nat p) * Z.of_nat (dim0 data))%Z = Z.of_nat n.
Proof. unfold n, w, l, t. nia. Qed.

(** The samples [lo .. lo + w - 1] of channel [i], trial after trial. *)
Definition lagged (lo i : nat) (v : vector R) : Prop :=
  vlen v = n /\ forall r, vget v r = tget data (r / w) (lo + r mod w) i.

Lemma reshape_predictor (i k : nat) :
  1 <= k <= p ->
  exists v, reshape_lagged data (Z.of_nat p - Z.of_nat k) (- Z.of_nat k) i
                           (Z.of_nat n) = Ok v
            /\ lagged (p - k) i v.
Proof.
  intros Hk. unfold reshape_lagged.
  assert (Hlo : slice_bound (Z.of_nat p - Z.of_nat k) (dim1 data) = p - k).
  { unfold slice_bound. destruct (Z.ltb_spec (Z.of_nat p - Z.of_nat k) 0); [lia|].
    fold l. lia. }
  assert (Hhi : slice_bound (- Z.of_nat k) (dim1 data) = l - k).
  { unfold slice_bound. destruct (Z.ltb_spec (- Z.of_nat k) 0); [|lia].
    fold l. destruct (Z.ltb_spec (- Z.of_nat k + Z.of_nat l) 0); lia. }
  rewrite Hlo, Hhi.
  replace (l - k - (p - k)) with w by (unfold w; lia).
  replace (dim0 data * w) with n by (unfold n, t; lia).
  rewrite Z.eqb_refl, orb_true_r.
  eexists. split; [reflexivity|]. split; reflexivity.
Qed.

Lemma reshape_response (i : nat) :
  exists v, reshape_lagged data (Z.of_nat p) (Z.of_nat (dim1 data)) i
                           (Z.of_nat n) = Ok v
            /\ lagged p i v.
Proof.
  unfold reshape_lagged.
  assert (Hlo : slice_bound (Z.of_nat p) (dim1 data) = p).
  { unfold slice_bound. destruct (Z.ltb_spec (Z.of_nat p) 0); [lia|].
    fold l. lia. }
  assert (Hhi : slice_bound (Z.of_nat (dim1 data)) (dim1 data) = l).
  { unfold slice_bound. destruct (Z.ltb_spec (Z.of_nat (dim1 data)) 0); [lia|].
    fold l. lia. }
  rewrite Hlo, Hhi. fold w.
  replace (dim0 data * w) with n by (unfold n, t; lia).
  rewrite Z.eqb_refl, orb_true_r.
  eexists. split; [reflexivity|]. split; reflexivity.
Qed.

(** [x[:n, c] = v] on an array of at least [n] rows. *)
Lemma set_col_prefix_ok (x : matrix R) (c : nat) (v : vector R) :
  n <= nrows x -> vlen v = n ->
  exists x',
    set_col_prefix x (Z.of_nat n) c v = Ok x'
    /\ nrows x' = nrows x /\ ncols x' = ncols x
    /\ forall r c', mget x' r c' =
                    if (c' =? c) && (r <? n) then vget v r else mget x r c'.
Proof.
  intros Hn Hv. unfold set_col_prefix.
  assert (Hb : slice_bound (Z.of_nat n) (nrows x) = n).
  { unfold slice_bound. destruct (Z.ltb_spec (Z.of_nat n) 0); lia. }
  rewrite Hb, Hv, bc_ok_refl.
  eexists. split; [reflexivity|]. cbn [nrows ncols mget].
  split; [reflexivity|]. split; [reflexivity|].
  intros r c'. destruct (c' =? c); cbn [andb]; [|reflexivity].
  destruct (Nat.ltb_spec r n); [|reflexivity].
  now rewrite bc_idx_lt.
Qed.

(** The predictor matrix with its first [j] columns written. *)
Definition predictors_filled (rows j : nat) (x : matrix R) : Prop :=
  nrows x = rows /\ ncols x = m * p
  /\ forall r c,
       mget x r c =
       if (c <? j) && (r <? n)
       then tget data (r / w) (p - (c mod p + 1) + r mod w) (c / p)
       else rO.

Lemma predictor_lags (rows i : nat) (x : matrix R) :
  n <= rows ->
  predictors_filled rows (i * p) x ->
  exists x',
    for_each (range 1 (p + 1))
      (fun k x =>
         v <- reshape_lagged data (Z.of_nat p - Z.of_nat k) (- Z.of_nat k) i
                             (Z.of_nat n) ;;
         set_col_prefix x (Z.of_nat n) (i * p + k - 1) v) x = Ok x'
    /\ predictors_filled rows (S i * p) x'.
Proof.
  intros Hrows Hx.
  destruct (@for_each_range_inv (matrix R)
              (fun k x =>
                 v <- reshape_lagged data (Z.of_nat p - Z.of_nat k)
                                     (- Z.of_nat k) i (Z.of_nat n) ;;
                 set_col_prefix x (Z.of_nat n) (i * p + k - 1) v)
              (fun k x => predictors_filled rows (i * p + (k - 1)) x)
              1 (p + 1) x) as (x' & E' & I').
  - lia.
  - now rewrite Nat.sub_diag, Nat.add_0_r.
  - intros k x0 Hk (Xr & Xc & Xg).
    destruct (reshape_predictor i (k := k)) as (v & Ev & Vl & Vg); [lia|].
    rewrite Ev. cbn [bind].
    destruct (set_col_prefix_ok x0 (i * p + k - 1) v) as (x1 & E1 & R1 & C1 & G1);
      [lia | exact Vl |].
    exists x1. split; [exact E1|].
    split; [congruence|]. split; [congruence|].
    intros r c. rewrite G1, Xg, Vg.
    replace (S k - 1) with k by lia.
    destruct (Nat.eqb_spec c (i * p + k - 1)) as [-> | Hne]; cbn [andb].
    + destruct (Nat.ltb_spec (i * p + k - 1) (i * p + k)); [|lia].
      destruct (Nat.ltb_spec r n); cbn [andb].
      * replace (i * p + k - 1) with (i * p + (k - 1)) by lia.
        destruct (@div_mod_flat i p (k - 1)) as [-> ->]; [lia|].
        repeat f_equal. lia.
      * destruct (i * p + k - 1 <? i * p + (k - 1)); reflexivity.
    + destruct (Nat.ltb_spec c (i * p + (k - 1)));
        destruct (Nat.ltb_spec c (i * p + k)); try reflexivity; lia.
  - exists x'. split; [exact E'|].
    replace (S i * p) with (i * p + (p + 1 - 1)) by lia. exact I'.
Qed.

Lemma predictor_channels (rows : nat) :
  n <= rows ->
  exists x,
    for_each (range 0 m)
      (fun i x =>
         for_each (range 1 (p + 1))
           (fun k x =>
              v <- reshape_lagged data (Z.of_nat p - Z.of_nat k) (- Z.of_nat k) i
                                  (Z.of_nat n) ;;
              set_col_prefix x (Z.of_nat n) (i * p + k - 1) v) x)
      (zeros rows (m * p)) = Ok x
    /\ predictors_filled rows (m * p) x.
Proof.
  intros Hrows.
  apply (@for_each_range_inv (matrix R) _
           (fun i x => predictors_filled rows (i * p) x) 0 m).
  - lia.
  - split; [reflexivity|]. split; [reflexivity|].
    intros r c. cbn [zeros mget]. simpl. reflexivity.
  - intros i x Hi Hx. now apply predictor_lags.
Qed.

(** The response matrix with its first [j] columns written. *)
Definition responses_filled (rows j : nat) (y : matrix R) : Prop :=
  nrows y = rows /\ ncols y = m
  /\ forall r c,
       mget y r c =
       if (c <? j) && (r <? n) then tget data (r / w) (p + r mod w) c else rO.

Lemma response_channels (rows : nat) :
  n <= rows ->
  exists y,
    for_each (range 0 m)
      (fun i y =>
         v <- reshape_lagged data (Z.of_nat p) (Z.of_nat (dim1 data)) i
                             (Z.of_nat n) ;;
         set_col_prefix y (Z.of_nat n) i v)
      (zeros rows m) = Ok y
    /\ responses_filled rows m y.
Proof.
  intros Hrows.
  apply (@for_each_range_inv (matrix R) _
           (fun i y => responses_filled rows i y) 0 m).
  - lia.
  - split; [reflexivity|]. split; [reflexivity|].
    intros r c. reflexivity.
  - intros i y Hi (Yr & Yc & Yg).
    destruct (reshape_response i) as (v & Ev & Vl & Vg).
    rewrite Ev. cbn [bind].
    destruct (set_col_prefix_ok y i v) as (y1 & E1 & R1 & C1 & G1);
      [lia | exact Vl |].
    exists y1. split; [exact E1|].
    split; [congruence|]. split; [congruence|].
    intros r c. rewrite G1, Yg, Vg.
    destruct (Nat.eqb_spec c i) as [-> | Hne]; cbn [andb].
    + destruct (Nat.ltb_spec i (S i)); [|lia].
      destruct (Nat.ltb_spec r n); cbn [andb]; [reflexivity|].
      destruct (i <? i); reflexivity.
    + destruct (Nat.ltb_spec c i); destruct (Nat.ltb_spec c (S i));
        try reflexivity; lia.
Qed.

End Run.

(** X4.  On data of shape (trials, samples, channels) with at least [p]
    samples, [_construct_var_eqns] returns the regression system of the
    model: one row for each trial and each sample that has [p]
    predecessors; in that row, column [i] of [y] holds the sample of
    channel [i], and column [i * p + k - 1] of [x] holds the sample of
    channel [i] that lies [k] steps earlier.  With a ridge parameter
    [delta], [m * p] further rows hold [delta] on the diagonal of [x] and
    zeros elsewhere in [x] and [y]. *)
Theorem construct_var_eqns_layout (data : tensor R) (p : nat) (delta : option R) :
  p <= dim1 data ->
  let t := dim0 data in
  let l := dim1 data in
  let m := dim2 data in
  let n := (l - p) * t in
  let rows := match delta with None => n | Some _ => n + m * p end in
  exists x y,
    _construct_var_eqns data p delta = Ok (x, y)
    /\ nrows x = rows /\ ncols x = m * p
    /\ nrows y = rows /\ ncols y = m
    /\ (forall r i k, r < n -> i < m -> 1 <= k <= p ->
          mget x r (i * p + k - 1)
          = tget data (r / (l - p)) (p - k + r mod (l - p)) i)
    /\ (forall r i, r < n -> i < m ->
          mget y r i = tget data (r / (l - p)) (p + r mod (l - p)) i)
    /\ (forall d, delta = Some d ->
        forall r c, n <= r < rows -> c < m * p ->
          mget x r c = if r - n =? c then d else rO)
    /\ (forall r i, n <= r < rows -> i < m -> mget y r i = rO).
Proof.
  intros Hpl t l m n rows. subst t l m n.
  set (n := (dim1 data - p) * dim0 data) in *.
  assert (Hrows : n <= rows) by (subst rows; destruct delta; lia).
  destruct (@predictor_channels data p Hpl rows Hrows) as (x & Ex & Xr & Xc & Xg).
  destruct (@response_channels data p Hpl rows Hrows) as (y & Ey & Yr & Yc & Yg).
  fold n in Ex, Ey, Xg, Yg.
  unfold _construct_var_eqns. rewrite (relations_count data Hpl). fold n.
  replace (match delta with
           | Some _ => (Z.of_nat n + Z.of_nat (dim2 data * p))%Z
           | None => Z.of_nat n
           end) with (Z.of_nat rows)
    by (subst rows; destruct delta; lia).
  rewrite !zeros_rows_nat. cbn [bind].
  rewrite Ex. cbn [bind]. rewrite Ey. cbn [bind].
  assert (Hb : slice_bound (Z.of_nat n) (nrows x) = n).
  { unfold slice_bound. destruct (Z.ltb_spec (Z.of_nat n) 0); lia. }
  rewrite Hb.
  eexists. exists y. split; [reflexivity|].
  split; [destruct delta; exact Xr|]. split; [destruct delta; exact Xc|].
  split; [exact Yr|]. split; [exact Yc|].
  split.
  { intros r i k Hr Hi Hk.
    assert (Hx : mget x r (i * p + k - 1)
                 = tget data (r / (dim1 data - p))
                        (p - k + r mod (dim1 data - p)) i).
    { rewrite Xg.
      destruct (Nat.ltb_spec (i * p + k - 1) (dim2 data * p)); [|nia].
      destruct (Nat.ltb_spec r n); [|lia]. cbn [andb].
      replace (i * p + k - 1) with (i * p + (k - 1)) by lia.
      destruct (@div_mod_flat i p (k - 1)) as [-> ->]; [lia|].
      repeat f_equal. lia. }
    destruct delta as [d|]; [|exact Hx].
    cbn [fill_diagonal_from mget].
    destruct (Nat.leb_spec n r); [lia|]. exact Hx. }
  split.
  { intros r i Hr Hi. rewrite Yg.
    destruct (Nat.ltb_spec i (dim2 data)); [|lia].
    destruct (Nat.ltb_spec r n); [|lia]. reflexivity. }
  split.
  { intros d -> r c Hr Hc. cbn [fill_diagonal_from mget].
    destruct (Nat.leb_spec n r); [|lia]. cbn [andb].
    destruct (r - n =? c); [reflexivity|].
    rewrite Xg. destruct (Nat.ltb_spec r n); [lia|].
    now rewrite andb_false_r. }
  intros r i Hr Hi. rewrite Yg.
  destruct (Nat.ltb_spec r n); [lia|]. now rewrite andb_false_r.
Qed.

End Equations.

Section EquationsOfModel.
Context {R : Type} {SR : Scalar R}.

(** X5.  A model's [_construct_eqns] on trials that are shorter than the
    model order cannot allocate its arrays: the number of relations
    [(l - p) * t] is negative, and [np.zeros] raises. *)
Theorem construct_eqns_short_data_raises (self : VARBase) (data : tensor R) :
  dim1 data < p self -> 1 <= dim0 data ->
  _construct_eqns self data
  = Raise (ValueError "negative dimensions are not allowed").
Proof.
  intros Hl Ht. unfold _construct_eqns, _construct_var_eqns, zeros_rows.
  destruct (Z.ltb_spec ((Z.of_nat (dim1 data) - Z.of_nat (p self))
                        * Z.of_nat (dim0 data)) 0) as [Hneg | Hpos].
  - reflexivity.
  - exfalso. nia.
Qed.

End EquationsOfModel.

(** *** [from_yw], [copy] and models that were never fitted *)

Section Estimation.
Context {R : Type} {SR : Scalar R} {E : Externals R}.

(** X6.  A model of order zero cannot be estimated by [from_yw]: with the
    single autocorrelation matrix that the guard asks for, [acms[1:]] is
    empty and [np.concatenate] raises. *)
Theorem from_yw_order_zero_raises (h : heap R) (self : VARBase) (acms : loc)
    (t : tensor R) :
  cells h acms = Arr3 t -> p self = 0 -> dim0 t = 1 ->
  from_yw h self acms = Raise empty_error.
Proof.
  intros Hcell Hp Hlen. unfold from_yw. rewrite Hcell, Hp. cbn [len bind].
  rewrite Hlen. cbn [Nat.add Nat.eqb negb as_tensor bind].
  unfold concatenate_tail. rewrite Hlen. reflexivity.
Qed.

(** X7.  What a successful [from_yw] leaves alone: the order, the
    residuals and the two options of the model are as before (residuals of
    an earlier fit stay in place beside the new coefficients); in the
    store exactly one array object is created, the coefficient array, and
    no array other than [acms] is written. *)
Theorem from_yw_frame (h : heap R) (self : VARBase) (acms : loc)
    (t : tensor R) (m : nat) (r rr c : matrix R) :
  cells h acms = Arr3 t ->
  1 <= p self ->
  dim0 t = p self + 1 ->
  dim1 t = m -> dim2 t = m -> 1 <= m ->
  concatenate_tail t = Ok r ->
  block_toeplitz t (p self) = Ok rr ->
  linalg_solve rr r = Some c ->
  nrows c = p self * m -> ncols c = m ->
  exists h' self',
    from_yw h self acms = Ok (h', self')
    /\ p self' = p self
    /\ residuals self' = residuals self
    /\ n_jobs self' = n_jobs self
    /\ verbose self' = verbose self
    /\ coef self' = Some (Whole (next h))
    /\ next h' = S (next h)
    /\ (forall l, l <> acms -> l <> next h -> cells h' l = cells h l).
Proof.
  intros Hcell Hp Hlen Hd1 Hd2 Hm Hr Hrr Hsolve Hcr Hcc.
  destruct (from_yw_run h self acms Hcell Hp Hlen Hd1 Hd2 Hm Hr Hrr Hsolve Hcr Hcc)
    as (h1 & cat & Erun & Inv & _).
  destruct Inv as (Hn & Hframe & _).
  do 2 eexists. split; [exact Erun|].
  cbn [set_coef p residuals n_jobs verbose coef alloc fst next cells].
  rewrite Hn. repeat split.
  intros l Hl Hnew.
  destruct (Nat.eqb_spec l (next h)); [contradiction|]. now apply Hframe.
Qed.

(** X8.  Estimation and the stability test do not compose for order one:
    the model that [from_yw] returns for [p = 1] makes [is_stable] raise
    the [ValueError] of [np.hstack]. *)
Theorem from_yw_then_is_stable_order_one (h : heap R) (self : VARBase)
    (acms : loc) (t : tensor R) (m : nat) (r rr c : matrix R) :
  cells h acms = Arr3 t ->
  p self = 1 ->
  dim0 t = 2 ->
  dim1 t = m -> dim2 t = m -> 1 <= m ->
  concatenate_tail t = Ok r ->
  block_toeplitz t 1 = Ok rr ->
  linalg_solve rr r = Some c ->
  nrows c = m -> ncols c = m ->
  exists h' self',
    from_yw h self acms = Ok (h', self')
    /\ is_stable h' self' = Raise shape_error.
Proof.
  intros Hcell Hp Hlen Hd1 Hd2 Hm Hr Hrr Hsolve Hcr Hcc.
  assert (Hp1 : 1 <= p self) by lia.
  assert (Hlen' : dim0 t = p self + 1) by lia.
  rewrite <- Hp in Hrr.
  assert (Hcr' : nrows c = p self * m) by lia.
  destruct (from_yw_run h self acms Hcell Hp1 Hlen' Hd1 Hd2 Hm Hr Hrr Hsolve
              Hcr' Hcc)
    as (h1 & cat & Erun & Inv & Cr & Cc & _).
  do 2 eexists. split; [exact Erun|].
  apply order_one_blocks_mismatch with (c := transpose cat).
  - unfold coef_matrix. cbn [set_coef coef]. now rewrite load_alloc_new.
  - cbn [transpose nrows]. lia.
  - cbn [transpose nrows ncols]. rewrite Cr, Cc, Hp. lia.
Qed.

(** X9.  A copy does not inherit the options of the original: [copy]
    builds the new model with [self.__class__(self.p)], so whenever it
    returns, the copy has [n_jobs = 1] and the configured default for
    [verbose], and three array objects have been created. *)
Theorem copy_resets_options (h h' : heap R) (self other : VARBase) :
  copy h self = Ok (h', other) ->
  n_jobs other = Some 1
  /\ verbose other = config_verbose
  /\ next h' = next h + 3.
Proof.
  unfold copy.
  destruct (coef self) as [c|]; [|discriminate].
  destruct (residuals self) as [r|]; [|discriminate].
  destruct (rescov self) as [v|]; [|discriminate].
  rewrite !array_copy_some. cbn [bind].
  intros Heq. injection Heq as <- <-.
  cbn [n_jobs verbose init next alloc fst]. repeat split. lia.
Qed.

(** X10.  Every method that reads the fitted state fails on a model as
    [__init__] leaves it, each with the error of the first operation that
    meets [None]: [is_stable] reads [self.coef.shape], [copy] calls
    [self.coef.copy()], [predict] indexes [np.shape(None)], [simulate]
    unpacks it, and [test_whiteness] slices [self.residuals]. *)
Theorem fresh_model_methods_raise (order : nat) (jobs : option nat)
    (verb : option bool) (h : heap R) :
  let self := init order jobs verb in
  is_stable h self
  = Raise (AttributeError "'NoneType' object has no attribute 'shape'")
  /\ copy h self
     = Raise (AttributeError "'NoneType' object has no attribute 'copy'")
  /\ (forall data,
        predict h self data = Raise (IndexError "tuple index out of range"))
  /\ (forall (G : Type) (noisefunc : G -> vector R * G) l g,
        simulate_with noisefunc h self l g = Raise unpack_error)
  /\ (forall lag repeats get_q random_state,
        VARBase_test_whiteness h self lag repeats get_q random_state
        = Raise (TypeError "'NoneType' object is not subscriptable")).
Proof.
  cbv zeta. repeat split.
Qed.

End Estimation.

(** *** [predict]: what a prediction depends on *)

Section Prediction.
Context {R : Type} {SR : Scalar R}.
Hypothesis rmul_comm : forall a b : R, rmul a b = rmul b a.

(** X11.  A prediction looks back [p] samples and no further: when two
    data sets of one shape agree on the [p] samples before sample [n],
    their predictions agree at sample [n], whatever the data sets hold at
    [n] itself, later, or longer ago. *)
Theorem predict_causal (h : heap R) (self : VARBase) (coefm : matrix R)
    (x x' : tensor R) (p n : nat) :
  fitted_for h self coefm (dim1 x) p ->
  1 <= dim1 x ->
  dim0 x' = dim0 x -> dim1 x' = dim1 x -> dim2 x' = dim2 x ->
  n < dim2 x ->
  (forall s c j, s < dim0 x -> c < dim1 x -> n - p <= j < n ->
                 tget x' s c j = tget x s c j) ->
  exists y y',
    predict h self (Arr3 x) = Ok y
    /\ predict h self (Arr3 x') = Ok y'
    /\ forall s i, s < dim0 x -> i < dim1 x -> tget y' s i n = tget y s i n.
Proof.
  intros Hfit Hm E0 E1 E2 Hn Hagree.
  destruct (@predict_spec R SR rmul_comm h self coefm (Arr3 x) p Hfit Hm)
    as (y & Ey & D0 & D1 & D2 & Hy).
  assert (Hfit' : fitted_for h self coefm (dim1 (atleast_3d (Arr3 x'))) p)
    by (cbn [atleast_3d]; now rewrite E1).
  assert (Hm' : 1 <= dim1 (atleast_3d (Arr3 x')))
    by (cbn [atleast_3d]; now rewrite E1).
  destruct (@predict_spec R SR rmul_comm h self coefm (Arr3 x') p Hfit' Hm')
    as (y' & Ey' & D0' & D1' & D2' & Hy').
  cbn [atleast_3d] in *.
  exists y, y'. split; [exact Ey|]. split; [exact Ey'|].
  intros s i Hs Hi.
  destruct (Hy s i n) as [Hlow Hhigh]; [lia | lia | lia |].
  destruct (Hy' s i n) as [Hlow' Hhigh']; [lia | lia | lia |].
  destruct (le_lt_dec p n) as [Hpn | Hpn].
  - rewrite Hhigh, Hhigh' by assumption.
    apply sum_lags_ext. intros k Hk.
    unfold lag_term. rewrite E1. apply rsum_ext. intros c Hc.
    f_equal. apply Hagree; [assumption | assumption | lia].
  - rewrite Hlow, Hlow' by assumption. reflexivity.
Qed.

(** X12.  Data without channels cannot be predicted: the model order is
    computed as [np.shape(self.coef)[1] / m], and [m] is zero. *)
Theorem predict_no_channels_raises (h : heap R) (self : VARBase)
    (c : matrix R) (x : ndarray R) :
  holds_coef h self c ->
  dim1 (atleast_3d x) = 0 ->
  predict h self x = Raise ZeroDivisionError.
Proof.
  intros (r & Hc & Hl) Hm. unfold predict, coef_for_shape.
  rewrite Hc, Hl. cbn [as_matrix bind]. unfold floordiv. now rewrite Hm.
Qed.

End Prediction.

(** *** [simulate]: what is stored, and the residuals of the result *)

Section SimulationEffects.
Context {R : Type} {SR : Scalar R} {E : Externals R}.

(** X13.  The side effects of [simulate] on a fitted model, for at least
    one trial.  The model's [residuals] become a new array of shape
    (trials, channels, [l]) that holds the noise draws of the returned
    samples: the draws of the [10 p] burn-in samples of each trial are
    dropped with them.  [rescov] becomes a second new array, what
    [np.cov] makes of the concatenated trials of those residuals.  Order,
    coefficients and options are unchanged, no existing array is written,
    and the noise source has been asked for [l + 10 p] draws per trial. *)
Theorem simulate_stores_residuals (G : Type) (noisefunc : G -> vector R * G)
    (h : heap R) (self : VARBase) (coefm : matrix R) (m order : nat)
    (larg : length_arg) (g0 : G) :
  fitted_for h self coefm m order ->
  1 <= m ->
  (forall g, vlen (fst (noisefunc g)) = m) ->
  1 <= requested_trials larg ->
  let l := requested_samples larg in
  let t := requested_trials larg in
  exists h' self' out g' res cat,
    simulate_with noisefunc h self larg g0 = Ok (h', self', out, g')
    /\ p self' = p self /\ coef self' = coef self
    /\ n_jobs self' = n_jobs self /\ verbose self' = verbose self
    /\ residuals self' = Some (Whole (next h))
    /\ rescov self' = Some (Whole (next h + 1))
    /\ load h' (Whole (next h)) = Arr3 res
    /\ cat_trials res = Ok cat
    /\ load h' (Whole (next h + 1)) = np_cov (transpose cat)
    /\ dim0 res = t /\ dim1 res = m /\ dim2 res = l
    /\ (forall s c i, s < t -> c < m -> i < l ->
          tget res s c i
          = vget (draw noisefunc g0 (s * (l + 10 * order) + (10 * order + i))) c)
    /\ g' = after_draws noisefunc g0 (t * (l + 10 * order))
    /\ next h' = next h + 2
    /\ (forall x, allocated h x -> load h' x = load h x).
Proof.
  intros Hfit Hm Hnoise Ht l t.
  destruct (@simulate_run R SR E G noisefunc h self coefm m order larg g0
              Hfit Hm Hnoise Ht)
    as (st & cat & Hgen & Ecat & Erun).
  destruct Hgen as (_ & (D0 & D1 & D2) & Hg & Hdone).
  fold l t in D0, D1, D2, Hg, Hdone.
  set (res := drop_transpose (sim_res st) (10 * order)) in *.
  set (h1 := fst (alloc h (Arr3 res))) in *.
  exists (fst (alloc h1 (np_cov (transpose cat)))),
         (set_residuals self (Whole (next h)) (Whole (S (next h)))),
         (drop_transpose (sim_y st) (10 * order)), (sim_noise st), res, cat.
  split; [exact Erun|].
  cbn [set_residuals p coef n_jobs verbose residuals rescov].
  replace (next h + 1) with (next h1) by (unfold h1; simpl; lia).
  repeat split.
  - rewrite load_alloc_old by (unfold h1; simpl; lia).
    unfold h1. apply load_alloc_new.
  - exact Ecat.
  - apply load_alloc_new.
  - unfold res. cbn [drop_transpose dim0]. exact D2.
  - unfold res. cbn [drop_transpose dim1]. exact D1.
  - unfold res. cbn [drop_transpose dim2]. rewrite D0. lia.
  - intros s c i Hs Hc Hi. unfold res. cbn [drop_transpose tget].
    rewrite D0, Nat.min_l by lia.
    apply Hdone; [lia | lia | assumption].
  - rewrite Hg. f_equal. lia.
  - unfold h1. simpl. lia.
  - intros x Hx.
    rewrite load_alloc_old by (now apply allocated_alloc).
    now apply load_alloc_old.
Qed.

Section RoundTrip.
Hypothesis Rth : ring_theory rO rI radd rmul rsub ropp (@eq R).
Add Ring Rring3 : Rth.

(** Adding terms to [a] one after the other is adding them to zero and
    then adding [a]. *)
Lemma fold_add_from (f : nat -> R) (ks : list nat) (a : R) :
  fold_left (fun acc k => radd acc (f k)) ks a
  = radd a (fold_left (fun acc k => radd acc (f k)) ks rO).
Proof.
  revert a. induction ks as [|k ks IH]; intros a; cbn [fold_left].
  - ring.
  - rewrite IH, (IH (radd rO (f k))). ring.
Qed.

(** X14.  Simulation and prediction agree on what a residual is
    ([r = x - var.predict(x)], as the notes of [predict] say): when
    [simulate] is asked for at least one trial, then from sample [p] on
    every sample that it returns is the residual stored for it plus the
    prediction that [predict], called on the returned data with the same
    model, makes for it. *)
Theorem simulate_then_predict (G : Type) (noisefunc : G -> vector R * G)
    (h : heap R) (self : VARBase) (cref : aref) (coefm : matrix R) (m p : nat)
    (larg : length_arg) (g0 : G) :
  coef self = Some cref -> allocated h cref -> load h cref = Arr2 coefm ->
  nrows coefm = m -> ncols coefm = m * p ->
  1 <= m ->
  (forall g, vlen (fst (noisefunc g)) = m) ->
  1 <= requested_trials larg ->
  let l := requested_samples larg in
  let t := requested_trials larg in
  exists h' self' out g' res y,
    simulate_with noisefunc h self larg g0 = Ok (h', self', out, g')
    /\ residuals self' = Some (Whole (next h))
    /\ load h' (Whole (next h)) = Arr3 res
    /\ predict h' self' (Arr3 out) = Ok y
    /\ forall s c i, s < t -> c < m -> p <= i < l ->
         tget out s c i = radd (tget res s c i) (tget y s c i).
Proof.
  intros Hc Hal Hl Hr Hcl Hm Hnoise Ht l t.
  assert (Hfit : fitted_for h self coefm m p)
    by (exists cref; repeat split; assumption).
  destruct (@simulate_run R SR E G noisefunc h self coefm m p larg g0
              Hfit Hm Hnoise Ht)
    as (st & cat & Hgen & _ & Erun).
  destruct Hgen as ((Y0 & Y1 & Y2) & (D0 & D1 & D2) & Hg & Hdone).
  fold l t in Y0, Y1, Y2, D0, D1, D2, Hg, Hdone.
  set (res := drop_transpose (sim_res st) (10 * p)) in *.
  set (out := drop_transpose (sim_y st) (10 * p)) in *.
  set (h1 := fst (alloc h (Arr3 res))) in *.
  set (h2 := fst (alloc h1 (np_cov (transpose cat)))) in *.
  set (self' := set_residuals self (Whole (next h)) (Whole (S (next h)))) in *.
  assert (O0 : dim0 out = t) by (unfold out; cbn [drop_transpose dim0]; exact Y2).
  assert (O1 : dim1 out = m) by (unfold out; cbn [drop_transpose dim1]; exact Y1).
  assert (O2 : dim2 out = l)
    by (unfold out; cbn [drop_transpose dim2]; rewrite Y0; lia).
  assert (Hout : forall s c i, tget out s c i = tget (sim_y st) (10 * p + i) c s).
  { intros s c i. unfold out. cbn [drop_transpose tget].
    now rewrite Y0, Nat.min_l by lia. }
  assert (Hfit' : fitted_for h2 self' coefm (dim1 (atleast_3d (Arr3 out))) p).
  { exists cref. cbn [atleast_3d]. rewrite O1.
    split; [exact Hc|]. split; [|split; assumption].
    unfold h2. rewrite load_alloc_old by (now apply allocated_alloc).
    unfold h1. now rewrite load_alloc_old. }
  assert (Hm' : 1 <= dim1 (atleast_3d (Arr3 out)))
    by (cbn [atleast_3d]; now rewrite O1).
  destruct (@predict_spec R SR (ARmul_comm (Rth_ARth (Eqsth R) (Eq_ext _ _ _) Rth))
              h2 self' coefm (Arr3 out) p Hfit' Hm')
    as (y & Ey & Q0 & Q1 & Q2 & Hy).
  cbn [atleast_3d] in Q0, Q1, Q2, Hy.
  exists h2, self', out, (sim_noise st), res, y.
  split; [exact Erun|]. split; [reflexivity|].
  split.
  { unfold h2. rewrite load_alloc_old by (unfold h1; simpl; lia).
    unfold h1. apply load_alloc_new. }
  split; [exact Ey|].
  intros s c i Hs Hci Hi.
  destruct (Hy s c i) as [_ Hhigh]; [lia | lia | lia |].
  rewrite Hhigh by lia.
  rewrite Hout.
  destruct (Hdone s (10 * p + i) c) as [Hval Hres]; [lia | lia | assumption |].
  rewrite Hval. unfold sample_value.
  destruct (Nat.leb_spec p (10 * p + i)); [|lia].
  rewrite fold_add_from. unfold sum_lags.
  f_equal.
  - unfold res. cbn [drop_transpose tget].
    rewrite D0, Nat.min_l by lia. symmetry. exact Hres.
  - apply fold_left_ext_in. intros acc k Hk. apply in_seq in Hk.
    f_equal. unfold feedback_term, lag_term. rewrite O1.
    apply rsum_ext. intros x Hx. f_equal.
    rewrite Hout. f_equal. lia.
Qed.

End RoundTrip.
End SimulationEffects.

(** *** The whiteness test at its edges *)

Section WhitenessEdges.
Context {R : Type} {SR : Scalar R} {E : Externals R}.

(** X15.  [test_whiteness] needs at least one surrogate: with
    [repeats = 0] the array of surrogate statistics is empty and of rank
    one, and indexing it with [[:, 2, -1]] raises before anything is
    divided by [repeats]. *)
Theorem test_whiteness_no_repeats_raises (data : tensor R) (h p : nat)
    (get_q : bool) (random_state : rng) :
  test_whiteness data h p 0 get_q random_state
  = Raise (IndexError "too many indices for array").
Proof. reflexivity. Qed.






(** X17.  The sample count of the test is [(n - p) * t] for residuals of
    [n] samples that remain after the first [p] have been dropped, so [p]
    is subtracted twice.  On data of exactly [2 p] samples per trial, or
    without trials, the count is zero, and for every lag [h >= 1] and
    every positive number of repeats [test_whiteness] does not return: it
    raises, and what it raises is [ZeroDivisionError] when the
    collaborators have computed the first surrogate's autocovariances. *)
Theorem test_whiteness_zero_count_raises (data : tensor R) (h p repeats : nat)
    (get_q : bool) (random_state : rng) :
  1 <= h -> 1 <= repeats ->
  dim2 data = 2 * p \/ dim0 data = 0 ->
  (exists e, test_whiteness data h p repeats get_q random_state = Raise e)
  /\ (statistic_computable (surrogate (drop_samples data p) random_state 0) h ->
      test_whiteness data h p repeats get_q random_state
      = Raise ZeroDivisionError).
Proof.
  intros Hh Hrep Hdata.
  assert (Hnt : ((Z.of_nat (dim2 (drop_samples data p)) - Z.of_nat p)
                 * Z.of_nat (dim0 (drop_samples data p)))%Z = 0%Z).
  { cbn [drop_samples dim0 dim2]. destruct Hdata as [H2 | H0].
    - rewrite H2. nia.
    - rewrite H0. lia. }
  split; [now apply whiteness_zero_count_fails|].
  intros (c0f & a & b & Hlags). unfold test_whiteness. rewrite Hnt.
  destruct repeats as [|n]; [lia|].
  cbn [_calc_q_h0].
  unfold surrogate, after_permutations in Hlags. cbn [Nat.iter nat_rect] in Hlags.
  destruct (rng_permutation random_state (drop_samples data p)) as [x' g'].
  cbn [fst] in Hlags.
  now rewrite (calc_q_zero_count Hlags eq_refl Hh).
Qed.

(** X18.  Simulating exactly [2 p] samples and testing the stored
    residuals for whiteness do not compose: [simulate], asked for at
    least one trial, returns, and the method [test_whiteness] of the model
    it leaves behind raises for every lag [h >= 1] and every positive
    number of repeats. *)
Theorem simulate_then_test_whiteness (G : Type) (noisefunc : G -> vector R * G)
    (h : heap R) (self : VARBase) (coefm : matrix R) (m : nat)
    (larg : length_arg) (g0 : G) (lag repeats : nat) (get_q : bool)
    (random_state : rng) :
  fitted_for h self coefm m (p self) ->
  1 <= m ->
  (forall g, vlen (fst (noisefunc g)) = m) ->
  1 <= requested_trials larg ->
  requested_samples larg = 2 * p self ->
  1 <= lag -> 1 <= repeats ->
  exists h' self' out g',
    simulate_with noisefunc h self larg g0 = Ok (h', self', out, g')
    /\ exists e,
         VARBase_test_whiteness h' self' lag repeats get_q random_state
         = Raise e.
Proof.
  intros Hfit Hm Hnoise Ht Hl Hlag Hrep.
  destruct (@simulate_run R SR E G noisefunc h self coefm m (p self) larg g0
              Hfit Hm Hnoise Ht) as (st & cat & Hgen & _ & Erun).
  destruct Hgen as (_ & (D0 & D1 & D2) & _).
  do 4 eexists. split; [exact Erun|].
  unfold VARBase_test_whiteness.
  cbn [set_residuals residuals p].
  rewrite load_alloc_old by (simpl; lia).
  rewrite load_alloc_new.
  apply whiteness_zero_count_fails; [assumption | assumption |].
  cbn [drop_samples drop_transpose dim0 dim2]. rewrite D0, Hl. nia.
Qed.

End WhitenessEdges.

(** *** Instances of the further properties *)

(** The fitted model of two channels and order one, on which the
    stability test cannot run. *)
Lemma is_stable_order_one_raises_witness :
  @is_stable Z Scalar_Z Externals_Z heap_fit var_fit = Raise shape_error.
Proof.
  apply (@is_stable_order_one_raises Z Scalar_Z Externals_Z heap_fit var_fit
           coef_identity).
  - exists (Whole 0). split; reflexivity.
  - simpl. lia.
  - reflexivity.
Defined.

(** A model of two channels and order two. *)
Definition coef_order2 : matrix Z := matrix_of [[1; 2; 3; 4]; [5; 6; 7; 8]]%Z.
Definition heap_order2 : heap Z := fst (alloc empty_heap (Arr2 coef_order2)).
Definition var_order2 : VARBase :=
  mkVAR 2 (Some (Whole 0)) None None (Some 1) false.

Lemma is_stable_companion_witness :
  exists a,
    @is_stable Z Scalar_Z Externals_Z heap_order2 var_order2
    = Ok (eig_all_abs_lt_1 a)
    /\ nrows a = 4 /\ ncols a = 4
    /\ mget a 0 1 = 3%Z /\ mget a 1 2 = 6%Z
    /\ mget a 2 0 = 1%Z /\ mget a 3 0 = 0%Z.
Proof.
  destruct (@is_stable_companion Z Scalar_Z Externals_Z heap_order2 var_order2
              coef_order2 2 2)
    as (a & Ea & Ar & Ac & Atop & Alow).
  - exists (Whole 0). split; reflexivity.
  - reflexivity.
  - reflexivity.
  - lia.
  - lia.
  - exists a. split; [exact Ea|]. split; [exact Ar|]. split; [exact Ac|].
    split; [apply (Atop 0 0 1); lia|].
    split; [apply (Atop 1 1 0); lia|].
    split; [apply (Alow 2 0); lia | apply (Alow 3 0); lia].
Defined.

(** Two rows and three columns: no whole number of lags. *)
Definition coef_ragged : matrix Z := matrix_of [[1; 2; 3]; [4; 5; 6]]%Z.
Definition heap_ragged : heap Z := fst (alloc empty_heap (Arr2 coef_ragged)).

Lemma is_stable_degenerate_shapes_witness :
  @is_stable Z Scalar_Z Externals_Z heap_ragged var_fit = Raise AssertionError.
Proof.
  apply (@is_stable_degenerate_shapes Z Scalar_Z Externals_Z heap_ragged var_fit
           coef_ragged).
  - exists (Whole 0). split; reflexivity.
  - simpl. lia.
  - simpl. lia.
Defined.

(** One trial of four samples of two channels, samples along the second
    axis. *)
Definition samples_first : tensor Z :=
  tensor_of [[[1; 10]; [2; 20]; [3; 30]; [4; 40]]]%Z.

Lemma construct_var_eqns_layout_witness :
  exists x y,
    _construct_var_eqns samples_first 2 (Some 7%Z) = Ok (x, y)
    /\ nrows x = 6 /\ ncols x = 4
    /\ mget x 1 0 = 3%Z /\ mget x 1 1 = 2%Z /\ mget x 1 2 = 30%Z
    /\ mget y 1 0 = 4%Z /\ mget y 1 1 = 40%Z
    /\ mget x 3 1 = 7%Z /\ mget x 3 2 = 0%Z.
Proof.
  destruct (@construct_var_eqns_layout Z Scalar_Z samples_first 2 (Some 7%Z))
    as (x & y & Erun & Xr & Xc & _ & _ & Hx & Hy & Hridge & _).
  - simpl. lia.
  - exists x, y. split; [exact Erun|]. split; [exact Xr|]. split; [exact Xc|].
    split; [apply (Hx 1 0 1); simpl; lia|].
    split; [apply (Hx 1 0 2); simpl; lia|].
    split; [apply (Hx 1 1 1); simpl; lia|].
    split; [apply (Hy 1 0); simpl; lia|].
    split; [apply (Hy 1 1); simpl; lia|].
    split; [apply (Hridge 7%Z eq_refl 3 1); simpl; lia
           | apply (Hridge 7%Z eq_refl 3 2); simpl; lia].
Defined.

Lemma construct_eqns_short_data_raises_witness :
  _construct_eqns var_yw data_short
  = Raise (ValueError "negative dimensions are not allowed").
Proof.
  apply (@construct_eqns_short_data_raises Z Scalar_Z var_yw data_short).
  - simpl. lia.
  - simpl. lia.
Defined.

(** A single autocorrelation matrix for a model of order zero. *)
Definition acms_single : tensor Z := tensor_of [[[1; 0]; [0; 1]]]%Z.
Definition heap_single : heap Z := fst (alloc empty_heap (Arr3 acms_single)).

Lemma from_yw_order_zero_raises_witness :
  from_yw heap_single (@init Z Externals_Z 0 (Some 1) (Some false)) 0
  = Raise empty_error.
Proof.
  apply (@from_yw_order_zero_raises Z Scalar_Z Externals_Z heap_single
           (init 0 (Some 1) (Some false)) 0 acms_single);
    reflexivity.
Defined.

Lemma from_yw_frame_witness :
  exists h' self',
    from_yw heap_yw var_yw 0 = Ok (h', self')
    /\ p self' = 2
    /\ residuals self' = None
    /\ coef self' = Some (Whole 1)
    /\ next h' = 2.
Proof.
  edestruct (@from_yw_frame Z Scalar_Z Externals_Z heap_yw var_yw 0 acms_Z 2)
    as (h' & self' & Erun & Hp & Hres & _ & _ & Hcoef & Hnext & _);
    try reflexivity; try (simpl; lia).
  exists h', self'. repeat split; assumption.
Defined.

(** A model of order one and the two matrices it needs. *)
Definition var_order1 : VARBase := @init Z Externals_Z 1 (Some 1) (Some false).

Lemma from_yw_then_is_stable_order_one_witness :
  exists h' self',
    from_yw heap_short var_order1 0 = Ok (h', self')
    /\ @is_stable Z Scalar_Z Externals_Z h' self' = Raise shape_error.
Proof.
  edestruct (@from_yw_then_is_stable_order_one Z Scalar_Z Externals_Z
               heap_short var_order1 0 acms_short 2)
    as (h' & self' & Erun & Hstable);
    try reflexivity; try (simpl; lia).
  exists h', self'. split; assumption.
Defined.

(** The fitted model with four jobs and verbose output. *)
Definition var_options : VARBase :=
  mkVAR 1 (Some (Whole 0)) (Some (Whole 1)) (Some (Whole 2)) (Some 4) true.

Lemma copy_resets_options_witness :
  exists h' other,
    @copy Z Externals_Z heap_fit var_options = Ok (h', other)
    /\ n_jobs var_options = Some 4 /\ verbose var_options = true
    /\ n_jobs other = Some 1 /\ verbose other = false.
Proof.
  do 2 eexists. split; [reflexivity|].
  split; [reflexivity|]. split; [reflexivity|].
  match goal with
  | |- n_jobs ?o = _ /\ _ =>
      destruct (@copy_resets_options Z Externals_Z heap_fit _ var_options o
                  eq_refl) as (Hj & Hv & _)
  end.
  split; [exact Hj | exact Hv].
Defined.

(** The single trial of [data_rank3] with another last sample. *)
Definition data_rank3_end : tensor Z := tensor_of [[[1; 2; 9]; [4; 5; 9]]]%Z.

Lemma predict_causal_witness :
  exists y y',
    predict heap_fit var_fit (Arr3 data_rank3) = Ok y
    /\ predict heap_fit var_fit (Arr3 data_rank3_end) = Ok y'
    /\ tget y' 0 1 2 = tget y 0 1 2.
Proof.
  destruct (@predict_causal Z Scalar_Z Z.mul_comm heap_fit var_fit
              coef_identity data_rank3 data_rank3_end 1 2)
    as (y & y' & Ey & Ey' & Hy).
  - exact fitted_heap_fit.
  - simpl. lia.
  - reflexivity.
  - reflexivity.
  - reflexivity.
  - simpl. lia.
  - intros s c j Hs Hc Hj. simpl in Hs, Hc.
    assert (s = 0) by lia. assert (j = 1) by lia. subst s j.
    destruct c as [|[|c]]; [reflexivity | reflexivity | lia].
  - exists y, y'. split; [exact Ey|]. split; [exact Ey'|].
    apply Hy; simpl; lia.
Defined.

Lemma predict_no_channels_raises_witness :
  predict heap_fit var_fit (Arr3 (zeros3 1 0 3)) = Raise ZeroDivisionError.
Proof.
  apply (@predict_no_channels_raises Z Scalar_Z heap_fit var_fit coef_identity).
  - exists (Whole 0). split; reflexivity.
  - reflexivity.
Defined.

Lemma simulate_stores_residuals_witness :
  exists h' self' out g' res,
    simulate_with noise_Z heap_fit var_fit (SamplesTrials 2 1) 0
    = Ok (h', self', out, g')
    /\ residuals self' = Some (Whole 3)
    /\ load h' (Whole 3) = Arr3 res
    /\ tget res 0 1 0 = 11%Z
    /\ g' = 12.
Proof.
  destruct (@simulate_stores_residuals Z Scalar_Z Externals_Z nat noise_Z
              heap_fit var_fit coef_identity 2 1 (SamplesTrials 2 1) 0
              fitted_heap_fit (le_S 1 1 (le_n 1)) (fun g => eq_refl) (le_n 1))
    as (h' & self' & out & g' & res & cat & Erun & _ & _ & _ & _ & Hres & _
        & Hload & _ & _ & _ & _ & _ & Hdraw & Hg & _).
  exists h', self', out, g', res.
  split; [exact Erun|]. split; [exact Hres|]. split; [exact Hload|].
  split.
  - rewrite (Hdraw 0 1 0) by (simpl; lia). reflexivity.
  - rewrite Hg. reflexivity.
Defined.

Lemma simulate_then_predict_witness :
  exists h' self' out g' res y,
    simulate_with noise_Z heap_fit var_fit (SamplesTrials 2 1) 0
    = Ok (h', self', out, g')
    /\ load h' (Whole 3) = Arr3 res
    /\ predict h' self' (Arr3 out) = Ok y
    /\ tget out 0 1 1 = (tget res 0 1 1 + tget y 0 1 1)%Z.
Proof.
  destruct (@simulate_then_predict Z Scalar_Z Externals_Z ring_Z nat noise_Z
              heap_fit var_fit (Whole 0) coef_identity 2 1 (SamplesTrials 2 1) 0)
    as (h' & self' & out & g' & res & y & Erun & _ & Hload & Ey & Hsum);
    try reflexivity; try (simpl; lia).
  exists h', self', out, g', res, y.
  split; [exact Erun|]. split; [exact Hload|]. split; [exact Ey|].
  apply (Hsum 0 1 1); simpl; lia.
Defined.



(** On trials of four samples and order two, two samples remain and the
    lag 1 is within them: the collaborators return, and the division by
    the sample count zero is what fails. *)
Lemma test_whiteness_zero_count_raises_witness :
  test_whiteness data_four 1 2 2 false (0 : @rng Z Externals_Z)
  = Raise ZeroDivisionError.
Proof.
  apply (@test_whiteness_zero_count_raises Z Scalar_Z Externals_Z
           data_four 1 2 2 false (0 : @rng Z Externals_Z)).
  - lia.
  - lia.
  - left. reflexivity.
  - apply statistic_computable_Z. rewrite surrogate_samples_Z. simpl. lia.
Defined.

(** Two samples of a model of order one: one residual sample remains
    after the trim, and the autocovariance of lag one is refused. *)
Lemma simulate_then_test_whiteness_witness :
  exists h' self' out g',
    simulate_with noise_Z heap_fit var_fit (Samples 2) 0 = Ok (h', self', out, g')
    /\ exists e,
         VARBase_test_whiteness h' self' 1 2 false (0 : @rng Z Externals_Z)
         = Raise e.
Proof.
  apply (@simulate_then_test_whiteness Z Scalar_Z Externals_Z
           nat noise_Z heap_fit var_fit
           coef_identity 2 (Samples 2) 0 1 2 false (0 : @rng Z Externals_Z)).
  - exact fitted_heap_fit.
  - lia.
  - intros g. reflexivity.
  - simpl. lia.
  - reflexivity.
  - lia.
  - lia.
Defined.
